(** * train_mbes.py: training / validation driver of the MBES denoiser

    A shallow embedding of [src/train_mbes.py]: the configuration
    dispatch [get_data_transform], the collation function
    [custom_collate] over a store of tensor storages, the validation
    pass [validate] with its two metrics, and the main loop with its
    [KeyboardInterrupt] handler.

    Numbers.  Tensor entries are modelled as real numbers, i.e. the
    arithmetic of the metrics is the exact one; the single non-finite
    value that the development tracks is the [nan] that torch returns
    for the mean of a tensor without entries. *)

From Stdlib Require Import Reals Lra ZArith String.
From stdpp Require Import gmap strings list.

(** ** Exceptions and results *)

Inductive exn :=
| ValueError (msg : string)
| RuntimeError (msg : string)
| KeyError (key : string)
| ZeroDivisionError
| KeyboardInterrupt.

Inductive result (A : Type) :=
| Ok (a : A)
| Raise (e : exn).
Arguments Ok {A} a.
Arguments Raise {A} e.

Definition rbind {A B} (r : result A) (k : A → result B) : result B :=
  match r with
  | Ok a => k a
  | Raise e => Raise e
  end.

(** Code that acts on a world [W] and may raise: the world that an
    exception leaves behind is kept. *)
Definition eff (W A : Type) : Type := W → result A * W.

Definition ret {W A} (a : A) : eff W A := λ w, (Ok a, w).

Definition bind {W A B} (c : eff W A) (k : A → eff W B) : eff W B :=
  λ w, match c w with
       | (Ok a, w') => k a w'
       | (Raise e, w') => (Raise e, w')
       end.

Definition lift {W A} (r : result A) : eff W A := λ w, (r, w).

Notation "x <- c ; k" := (bind c (λ x, k))
  (at level 20, c at level 100, k at level 200).
Notation "' pat <- c ; k" := (bind c (λ x, match x with pat => k end))
  (at level 20, pat pattern, c at level 100, k at level 200).

(** A list comprehension [[f(x) for x in l]] with an effectful [f]. *)
Fixpoint for_each {W A B} (f : A → eff W B) (l : list A) : eff W (list B) :=
  match l with
  | [] => ret []
  | x :: l' => y <- f x; ys <- for_each f l'; ret (y :: ys)
  end.

(** ** Configuration: [get_data_transform] *)

Module Config.

(** Modelled from the spec: the transform classes [AddNoise] and
    [AddNoiseToNoisyPCL] of [utils.transforms] are not part of the
    source at hand.  The spec describes a noise transform by its
    [(noise_std_min, noise_std_max)] range, from which a deviation is
    sampled at call time.  Constructing one stores the range; this
    serves the dispatch on the transform name.  What the real
    constructors do with a range is not settled here: module
    [Transforms] below has the same dispatch with the constructors as
    parameters that may raise. *)
Inductive transform :=
| AddNoise (noise_std_min noise_std_max : R)
| AddNoiseToNoisyPCL (noise_std_min noise_std_max : R).

Inductive compose := Compose (ts : list transform).

(** The attributes of [args.train_dataset] / [args.val_dataset] that
    [get_data_transform] reads.  [transform = None] is Python's [None]. *)
Record args_dataset := {
  transform_name : option string;
  noise_min : R;
  noise_max : R;
}.

Definition get_data_transform (a : args_dataset) : result (option compose) :=
  match transform_name a with
  | None => Ok None
  | Some name =>
      if String.eqb name "add_noise_to_clean" then
        Ok (Some (Compose [AddNoise (noise_min a) (noise_max a)]))
      else if String.eqb name "add_noise_to_noisy" then
        Ok (Some (Compose [AddNoiseToNoisyPCL (noise_min a) (noise_max a)]))
      else Raise (ValueError ("Invalid transform type: " +:+ name))
  end.

(** The transform settings that [get_data_transform] knows. *)
Definition recognised (a : args_dataset) : Prop :=
  transform_name a = None
  ∨ transform_name a = Some "add_noise_to_clean"
  ∨ transform_name a = Some "add_noise_to_noisy".

(** Lines 54-68 of the script: both dataset sections are turned into
    transforms, the training one first, before the loaders, the model
    and the main loop exist.  An exception here ends the script. *)
Definition load_datasets (train_dataset val_dataset : args_dataset)
  : result (option compose * option compose) :=
  rbind (get_data_transform train_dataset) (λ t,
  rbind (get_data_transform val_dataset) (λ v, Ok (t, v))).

End Config.

(** ** [get_data_transform] with the transform classes left open *)

Module Transforms.

Section Constructors.

(** The transform objects and the composed transforms. *)
Context {T C : Type}.

(** [AddNoise(noise_std_min=..., noise_std_max=...)],
    [AddNoiseToNoisyPCL(...)] and [Compose([...])]: the classes come
    from [utils.transforms], which is not part of the source at hand.
    A constructor call returns an object or raises. *)
Variable AddNoise AddNoiseToNoisyPCL : R → R → result T.
Variable Compose : list T → result C.

(** Lines 39-50. *)
Definition get_data_transform (a : Config.args_dataset)
  : result (option C) :=
  match Config.transform_name a with
  | None => Ok None
  | Some name =>
      if String.eqb name "add_noise_to_clean" then
        rbind (AddNoise (Config.noise_min a) (Config.noise_max a)) (λ t,
        rbind (Compose [t]) (λ transforms, Ok (Some transforms)))
      else if String.eqb name "add_noise_to_noisy" then
        rbind (AddNoiseToNoisyPCL (Config.noise_min a) (Config.noise_max a))
          (λ t,
        rbind (Compose [t]) (λ transforms, Ok (Some transforms)))
      else Raise (ValueError ("Invalid transform type: " +:+ name))
  end.

End Constructors.

(** Constructors that refuse every range. *)
Definition refuse (_ _ : R) : result unit :=
  Raise (ValueError "noise range refused").

Definition compose_units (_ : list unit) : result unit := Ok tt.

End Transforms.

(** ** Tensors and the ops of torch that the script calls *)

Module Tensor.

Abbreviation point := (R * R * R)%type.
Abbreviation cloud := (list point).

Definition zero_point : point := (0, 0, 0)%R.

Definition padd (p q : point) : point :=
  let '(a, b, c) := p in let '(d, e, f) := q in (a + d, b + e, c + f)%R.

Definition psub (p q : point) : point :=
  let '(a, b, c) := p in let '(d, e, f) := q in (a - d, b - e, c - f)%R.

Definition pscale (s : R) (p : point) : point :=
  let '(a, b, c) := p in (s * a, s * b, s * c)%R.

(** [torch.linalg.norm(_, dim=-1)] on one row: the 2-norm. *)
Definition vector_norm (p : point) : R :=
  let '(a, b, c) := p in sqrt (a * a + b * b + c * c).

(** A Python float obtained by [.item()]: a number or [nan]. *)
Inductive fscalar :=
| Val (r : R)
| NaN.

(** A float tensor as the validation loop sees it: [(L, 3)] or
    [(B, L, 3)].  A three-dimensional tensor is the list of its [B]
    slices, all of the same length [L]. *)
Inductive ftensor :=
| T2 (rows : cloud)
| T3 (slices : list cloud).

(** [t.squeeze(dim=0)] on a [(B, L, 3)] tensor: the leading dimension
    goes away when it is 1 and stays otherwise. *)
Definition squeeze0 (t : list cloud) : ftensor :=
  match t with
  | [c] => T2 c
  | _ => T3 t
  end.

Fixpoint collect {A} (rs : list (result A)) : result (list A) :=
  match rs with
  | [] => Ok []
  | r :: rs' => rbind r (λ a, rbind (collect rs') (λ l, Ok (a :: l)))
  end.

(** Broadcasting of a binary op along one dimension: sizes must agree
    or one of them must be 1, otherwise torch raises [RuntimeError]. *)
Definition broadcast {A B C} (f : A → B → result C)
    (xs : list A) (ys : list B) : result (list C) :=
  if decide (length xs = length ys) then collect (zip_with f xs ys)
  else match xs, ys with
       | [x], _ => collect (map (f x) ys)
       | _, [y] => collect (map (λ x, f x y) xs)
       | _, _ => Raise (RuntimeError
                   "The size of tensor a must match the size of tensor b")
       end.

Definition cloud_sub (a b : cloud) : result cloud :=
  broadcast (λ p q, Ok (psub p q)) a b.

(** [a - b]; a two-dimensional operand is aligned on the trailing
    dimensions, i.e. read as a batch of one slice. *)
Definition tsub (a b : ftensor) : result ftensor :=
  match a, b with
  | T2 x, T2 y => rbind (cloud_sub x y) (λ d, Ok (T2 d))
  | T3 x, T3 y => rbind (broadcast cloud_sub x y) (λ d, Ok (T3 d))
  | T2 x, T3 y => rbind (broadcast cloud_sub [x] y) (λ d, Ok (T3 d))
  | T3 x, T2 y => rbind (broadcast cloud_sub x [y]) (λ d, Ok (T3 d))
  end.

(** [torch.linalg.norm(t, dim=-1)], listed in row-major order. *)
Definition norms (t : ftensor) : list R :=
  match t with
  | T2 x => map vector_norm x
  | T3 x => concat (map (map vector_norm) x)
  end.

Definition Rsum (l : list R) : R := foldr Rplus 0%R l.

(** [t.mean().item()]: the mean over all entries, [nan] when there are
    none. *)
Definition mean (l : list R) : fscalar :=
  match l with
  | [] => NaN
  | _ => Val (Rsum l / INR (length l))
  end.

(** The entries of [torch.tensor(items)] when none of them is [nan]. *)
Fixpoint finite_items (items : list fscalar) : option (list R) :=
  match items with
  | [] => Some []
  | Val r :: rest => option_map (cons r) (finite_items rest)
  | NaN :: _ => None
  end.

(** [torch.mean(torch.tensor(items))] on a list of Python floats;
    a [nan] among them makes the mean [nan]. *)
Definition mean_items (items : list fscalar) : fscalar :=
  match finite_items items with
  | Some rs => mean rs
  | None => NaN
  end.

(** Line 179:
    [torch.linalg.norm(pcl_denoised - pcl_clean, dim=-1).mean().item()]. *)
Definition point_corr_distance (pcl_denoised pcl_clean : ftensor)
  : result fscalar :=
  rbind (tsub pcl_denoised pcl_clean) (λ d, Ok (mean (norms d))).

(** The copy of a cloud translated by [v]. *)
Definition translate (v : point) (c : cloud) : cloud :=
  map (λ p, padd p v) c.

(** The distances of matching rows. *)
Definition row_distances (a b : cloud) : list R :=
  map vector_norm (zip_with psub a b).

End Tensor.

(** ** The Langevin denoiser *)

Module Langevin.
Import Tensor.

(** Modelled from the spec: [mbes_denoise] (module [utils.denoise]) is
    not part of the source at hand.  The spec gives it as a state
    machine: the state is the current estimate [x] and the step index
    [t], starting from the noisy cloud and 0; a transition asks the
    model for one displacement per point and sets
    [x <- x + step_size(t) * d_t]; after [T] transitions the final [x]
    is the output.  This is the deterministic variant, without the
    optional injected noise term. *)
Record ld_state := { ld_x : cloud; ld_t : nat }.

Definition ld_step (model : cloud → cloud) (step_size : nat → R)
    (s : ld_state) : ld_state :=
  {| ld_x := zip_with (λ p d, padd p (pscale (step_size (ld_t s)) d))
                      (ld_x s) (model (ld_x s));
     ld_t := S (ld_t s) |}.

Definition langevin_denoise (model : cloud → cloud) (step_size : nat → R)
    (T : nat) (pcl_noisy : cloud) : cloud :=
  ld_x (Nat.iter T (ld_step model step_size) {| ld_x := pcl_noisy; ld_t := 0 |}).

(** The model that predicts a zero displacement for every point. *)
Definition zero_model (x : cloud) : cloud := map (λ _, zero_point) x.

End Langevin.

(** ** [custom_collate] over a store of tensor storages *)

Module Collate.
Import Tensor.

Definition loc := positive.

(** The contents of the storage behind a tensor.  The tensors of a
    patch sample are clouds [(N, 3)] and a centroid [(3,)]; the
    collation function builds [(B, L, 3)], [(B, 3)] and a long tensor
    [(B,)]. *)
Inductive storage :=
| FloatNx3 (rows : cloud)
| Float3 (p : point)
| FloatBxLx3 (slices : list cloud)
| FloatBx3 (rows : list point)
| LongB (entries : list Z).

(** A tensor object is known by the storage it views; two tensors
    alias when they hold the same location. *)
Abbreviation store := (gmap loc storage).

(** A patch sample [d]: the tensors under its three keys. *)
Record sample := {
  d_pcl_clean : loc;
  d_pcl_noisy : loc;
  d_pcl_noisy_mean : loc;
}.

(** The dictionary that [custom_collate] returns. *)
Record batch := {
  pcl_clean : loc;
  pcl_noisy : loc;
  pcl_noisy_mean : loc;
  pcl_length : loc;
}.

(** A new storage, at a location that the store does not use. *)
Definition alloc (t : storage) : eff store loc :=
  λ h, let l := fresh (dom h) in (Ok l, <[l:=t]> h).

Definition read (l : loc) : eff store storage :=
  λ h, match h !! l with
       | Some t => (Ok t, h)
       | None => (Raise (RuntimeError "no such tensor"), h)
       end.

(** [t.clone()]: a copy of the contents in a storage of its own. *)
Definition clone (l : loc) : eff store loc :=
  t <- read l; alloc t.

(** [t.detach()]: a tensor cut off from the autograd graph, on the
    storage of [t]. *)
Definition detach (l : loc) : eff store loc := ret l.

(** [pcl.shape[0]] of an [(N, 3)] tensor. *)
Definition shape0 (l : loc) : eff store nat :=
  t <- read l;
  match t with
  | FloatNx3 rows => ret (length rows)
  | _ => lift (Raise (RuntimeError "not an (N, 3) tensor"))
  end.

Definition read_cloud (l : loc) : eff store cloud :=
  t <- read l;
  match t with
  | FloatNx3 rows => ret rows
  | _ => lift (Raise (RuntimeError "not an (N, 3) tensor"))
  end.

Definition read_point (l : loc) : eff store point :=
  t <- read l;
  match t with
  | Float3 p => ret p
  | _ => lift (Raise (RuntimeError "not a (3,) tensor"))
  end.

Definition max_len (seqs : list cloud) : nat :=
  foldr (λ c m, Nat.max (length c) m) 0 seqs.

(** The values of [pad_sequence(seqs, batch_first=True)]: every
    sequence is followed by zero rows up to the longest length. *)
Definition padded (seqs : list cloud) : list cloud :=
  map (λ c, c ++ replicate (max_len seqs - length c) zero_point) seqs.

(** [pad_sequence(seqs, batch_first=True)]; an empty list of sequences
    is refused. *)
Definition pad_sequence (seqs : list loc) : eff store loc :=
  match seqs with
  | [] => lift (Raise (RuntimeError "received an empty list of sequences"))
  | _ => cs <- for_each read_cloud seqs; alloc (FloatBxLx3 (padded cs))
  end.

(** [torch.stack(ts, axis=0)] on centroids; an empty list is refused. *)
Definition stack (ts : list loc) : eff store loc :=
  match ts with
  | [] => lift (Raise (RuntimeError "stack expects a non-empty TensorList"))
  | _ => ps <- for_each read_point ts; alloc (FloatBx3 ps)
  end.

(** [torch.LongTensor(l)]. *)
Definition LongTensor (l : list nat) : eff store loc :=
  alloc (LongB (map Z.of_nat l)).

Definition custom_collate (data : list sample) : eff store batch :=
  pcl_clean <- for_each (λ d, c <- clone (d_pcl_clean d); detach c) data;
  pcl_noisy <- for_each (λ d, c <- clone (d_pcl_noisy d); detach c) data;
  pcl_noisy_mean <-
    for_each (λ d, c <- clone (d_pcl_noisy_mean d); detach c) data;
  pcl_length <- for_each shape0 pcl_clean;
  pcl_clean <- pad_sequence pcl_clean;
  pcl_noisy <- pad_sequence pcl_noisy;
  stacked <- stack pcl_noisy_mean;
  lengths <- LongTensor pcl_length;
  ret {| pcl_clean := pcl_clean; pcl_noisy := pcl_noisy;
         pcl_noisy_mean := stacked; pcl_length := lengths |}.

(** The storages that a sample and a batch refer to. *)
Definition sample_locs (d : sample) : list loc :=
  [d_pcl_clean d; d_pcl_noisy d; d_pcl_noisy_mean d].

Definition batch_locs (b : batch) : list loc :=
  [pcl_clean b; pcl_noisy b; pcl_noisy_mean b; pcl_length b].

(** Code that only adds storages, and code that leaves the store as
    it is. *)
Definition grows {A} (c : eff store A) : Prop := ∀ h, h ⊆ (c h).2.

Definition reads_only {A} (c : eff store A) : Prop := ∀ h, (c h).2 = h.

(** The contents of the three tensors of a sample [d] in the store. *)
Definition holds (h : store) (d : sample) (x : cloud * cloud * point)
  : Prop :=
  h !! d_pcl_clean d = Some (FloatNx3 x.1.1)
  ∧ h !! d_pcl_noisy d = Some (FloatNx3 x.1.2)
  ∧ h !! d_pcl_noisy_mean d = Some (Float3 x.2).

End Collate.

(** ** The script: training epoch, validation pass, main loop *)

Module Script.
Import Tensor.

(** A batch as a loader yields it: the values of the four entries of
    the dictionary built by the collation function. *)
Record batch := {
  pcl_clean : list cloud;
  pcl_noisy : list cloud;
  pcl_noisy_mean : list point;
  pcl_length : list Z;
}.

Inductive log_line :=
| LogInfo (msg : string)
| LogTrain (i : nat) (loss grad : fscalar)
| LogVal (it : nat) (cd diff : fscalar).

(** Calls received by [writer]. *)
Inductive writer_event :=
| AddScalar (tag : string) (value : fscalar) (step : nat)
| Flush.

Definition fadd (x y : fscalar) : fscalar :=
  match x, y with
  | Val a, Val b => Val (a + b)
  | _, _ => NaN
  end.

(** Python's [x / n] for a float [x] and an int [n]. *)
Definition fdiv_int (x : fscalar) (n : Z) : result fscalar :=
  if decide (n = 0%Z) then Raise ZeroDivisionError
  else Ok (match x with Val a => Val (a / IZR n) | NaN => NaN end).

(** Python's [i % n] on ints. *)
Definition py_mod (i n : Z) : result Z :=
  if decide (n = 0%Z) then Raise ZeroDivisionError else Ok (i `mod` n)%Z.

Section Script.

(** The model with its parameters, the optimizer and the scheduler:
    all of it lives in modules outside the script. *)
Context {S : Type}.

(** [mbes_denoise(model, ·, ld_step_size=args.ld_step_size)]. *)
Variable mbes_denoise : S → ftensor → result ftensor.

(** [pytorch3d.loss.chamfer_distance(x.unsqueeze(0), y.unsqueeze(0),
    batch_reduction='mean', point_reduction='mean')[0].item()]: the
    whole tensors are passed, no lengths. *)
Variable chamfer_distance : ftensor → ftensor → result fscalar.

(** One optimisation step, lines 117-133: [zero_grad], the supervised
    loss, [backward], [clip_grad_norm_], [optimizer.step].  Gives
    [loss.item()] and the gradient norm before clipping. *)
Variable train_step : S → batch → result (fscalar * fscalar) * S.

(** [optimizer.param_groups[0]['lr']]. *)
Variable lr : S → fscalar.

Variable scheduler_step : S → result unit * S.

(** The outcome of a call [ckpt_mgr.save(model, args, score, opt_states,
    step=...)]: it returns, or an exception leaves it unfinished. *)
Variable ckpt_mgr_save : S → fscalar → nat → result unit.

Variable log_interval : Z.
Variable max_epochs : nat.
Variable train_loader val_loader : list batch.

Record checkpoint := {
  ck_state : S;
  ck_score : fscalar;
  ck_step : nat;
}.

(** What the script acts on.  [checkpoints] lists the calls of
    [ckpt_mgr.save] that returned, oldest first. *)
Record world := {
  state : S;
  logger : list log_line;
  writer : list writer_event;
  checkpoints : list checkpoint;
}.

Definition M : Type → Type := eff world.

Definition logger_info (l : log_line) : M unit :=
  λ w, (Ok tt, {| state := state w; logger := logger w ++ [l];
                  writer := writer w; checkpoints := checkpoints w |}).

Definition writer_call (e : writer_event) : M unit :=
  λ w, (Ok tt, {| state := state w; logger := logger w;
                  writer := writer w ++ [e]; checkpoints := checkpoints w |}).

(** A call into the model or the optimizer: the state it leaves
    behind is kept, also when it raises. *)
Definition on_state {A} (f : S → result A * S) : M A :=
  λ w, let '(r, s') := f (state w) in
       (r, {| state := s'; logger := logger w;
              writer := writer w; checkpoints := checkpoints w |}).

Definition get_state : M S := λ w, (Ok (state w), w).

(** *** [train_for_one_epoch] *)

Fixpoint train_loop (epoch_num len_data_loader i : nat) (rest : list batch)
    (running_loss running_grad : fscalar) : M unit :=
  match rest with
  | [] => ret tt
  | data :: rest' =>
      '(loss, orig_grad_norm) <- on_state (λ s, train_step s data) ;
      let running_loss := fadd running_loss loss in
      let running_grad := fadd running_grad orig_grad_norm in
      r <- lift (py_mod (Z.of_nat i) log_interval) ;
      if decide (r = 0%Z) then
        avg_loss_per_iter <- lift (fdiv_int running_loss log_interval) ;
        avg_grad_per_iter <- lift (fdiv_int running_grad log_interval) ;
        _ <- logger_info (LogTrain i avg_loss_per_iter avg_grad_per_iter) ;
        let step := epoch_num * len_data_loader + i in
        _ <- writer_call (AddScalar "train/loss" avg_loss_per_iter step) ;
        s <- get_state ;
        _ <- writer_call (AddScalar "train/lr" (lr s) step) ;
        _ <- writer_call (AddScalar "train/grad_norm" avg_grad_per_iter step) ;
        _ <- writer_call Flush ;
        train_loop epoch_num len_data_loader (Datatypes.S i) rest' (Val 0) (Val 0)
      else
        train_loop epoch_num len_data_loader (Datatypes.S i) rest'
                   running_loss running_grad
  end.

Definition train_for_one_epoch (epoch_num : nat) : M unit :=
  train_loop epoch_num (length train_loader) 0 train_loader (Val 0) (Val 0).

(** *** [validate] *)

(** The six lists that the loop of [validate] appends to. *)
Record val_lists := {
  all_clean : list ftensor;
  all_noisy : list ftensor;
  all_denoised : list ftensor;
  all_length : list (list Z);
  all_chamfer : list fscalar;
  all_point_corr_distance : list fscalar;
}.

Definition no_lists : val_lists :=
  {| all_clean := []; all_noisy := []; all_denoised := []; all_length := [];
     all_chamfer := []; all_point_corr_distance := [] |}.

(** The body of the loop, lines 163-180. *)
Definition validate_body (s : S) (acc : val_lists) (data : batch)
  : result val_lists :=
  let noisy := squeeze0 (pcl_noisy data) in
  let clean := squeeze0 (pcl_clean data) in
  let len := pcl_length data in
  rbind (mbes_denoise s noisy) (λ pcl_denoised,
  rbind (chamfer_distance pcl_denoised clean) (λ chamfer,
  rbind (point_corr_distance pcl_denoised clean) (λ d,
  Ok {| all_clean := all_clean acc ++ [clean];
        all_noisy := all_noisy acc ++ [noisy];
        all_denoised := all_denoised acc ++ [pcl_denoised];
        all_length := all_length acc ++ [len];
        all_chamfer := all_chamfer acc ++ [chamfer];
        all_point_corr_distance := all_point_corr_distance acc ++ [d] |}))).

Fixpoint validate_loop (s : S) (rest : list batch) (acc : val_lists)
  : result val_lists :=
  match rest with
  | [] => Ok acc
  | data :: rest' => rbind (validate_body s acc data) (validate_loop s rest')
  end.

Definition validate (it : nat) : M (fscalar * fscalar) :=
  s <- get_state ;
  acc <- lift (validate_loop s val_loader no_lists) ;
  let avg_chamfer := mean_items (all_chamfer acc) in
  let avg_point_corr_dist := mean_items (all_point_corr_distance acc) in
  _ <- logger_info (LogVal it avg_chamfer avg_point_corr_dist) ;
  _ <- writer_call (AddScalar "val/chamfer" avg_chamfer it) ;
  _ <- writer_call (AddScalar "val/diff" avg_point_corr_dist it) ;
  _ <- writer_call Flush ;
  ret (avg_chamfer, avg_point_corr_dist).

(** *** Main loop *)

(** [ckpt_mgr.save(model, args, diff_loss, opt_states, step=epoch)]:
    the checkpoint counts as written when the call returns. *)
Definition ckpt_save (score : fscalar) (step : nat) : M unit :=
  λ w, match ckpt_mgr_save (state w) score step with
       | Ok _ => (Ok tt, {| state := state w; logger := logger w;
                            writer := writer w;
                            checkpoints := checkpoints w ++
                              [{| ck_state := state w; ck_score := score;
                                  ck_step := step |}] |})
       | Raise e => (Raise e, w)
       end.

(** The body of [for epoch in range(args.max_epochs)]. *)
Definition epoch_body (epoch : nat) : M unit :=
  _ <- train_for_one_epoch epoch ;
  '(cd_loss, diff_loss) <- validate epoch ;
  _ <- ckpt_save diff_loss epoch ;
  on_state scheduler_step.

(** [for epoch in range(first, first + n)]. *)
Fixpoint epochs (n first : nat) : M unit :=
  match n with
  | O => ret tt
  | Datatypes.S n' => _ <- epoch_body first ; epochs n' (Datatypes.S first)
  end.

(** [try: ... except KeyboardInterrupt: logger.info('Terminating...')]. *)
Definition main_loop : M unit :=
  λ w, match epochs max_epochs 0 w with
       | (Raise KeyboardInterrupt, w') => logger_info (LogInfo "Terminating...") w'
       | other => other
       end.

(** *** Vocabulary of the properties *)

(** What one iteration computes for the batch [data]: the denoised
    tensor and the two metrics, each on the whole tensors. *)
Definition measured (s : S) (data : batch) (m : ftensor * fscalar * fscalar)
  : Prop :=
  let '(den, chamfer, d) := m in
  mbes_denoise s (squeeze0 (pcl_noisy data)) = Ok den
  ∧ chamfer_distance den (squeeze0 (pcl_clean data)) = Ok chamfer
  ∧ point_corr_distance den (squeeze0 (pcl_clean data)) = Ok d.

(** Two batches with the same clouds; [pcl_length] and
    [pcl_noisy_mean] are free. *)
Definition same_clouds (d d' : batch) : Prop :=
  pcl_noisy d = pcl_noisy d' ∧ pcl_clean d = pcl_clean d'.

(** The part of the six lists that [validate] goes on to use. *)
Definition same_metrics (acc acc' : val_lists) : Prop :=
  all_chamfer acc = all_chamfer acc'
  ∧ all_point_corr_distance acc = all_point_corr_distance acc'.

Definition same_outcome (r r' : result val_lists) : Prop :=
  match r, r' with
  | Ok acc, Ok acc' => same_metrics acc acc'
  | Raise e, Raise e' => e = e'
  | _, _ => False
  end.

(** Code that leaves the written checkpoints alone. *)
Definition keeps_checkpoints {A} (c : M A) : Prop :=
  ∀ w, checkpoints (c w).2 = checkpoints w.

(** The world after a call into the model that left the state [s]. *)
Definition with_state (s : S) (w : world) : world :=
  {| state := s; logger := logger w; writer := writer w;
     checkpoints := checkpoints w |}.

(** A running sum divided by [args.log_interval]. *)
Definition over_interval (x : fscalar) : fscalar :=
  match x with
  | Val a => Val (a / IZR log_interval)
  | NaN => NaN
  end.

(** The world after the logging block of lines 140-150 at iteration
    [i], for the running sums [running_loss] and [running_grad]. *)
Definition train_report (epoch_num len_data_loader i : nat)
    (running_loss running_grad : fscalar) (w : world) : world :=
  let step := epoch_num * len_data_loader + i in
  {| state := state w;
     logger := logger w ++ [LogTrain i (over_interval running_loss)
                                      (over_interval running_grad)];
     writer := writer w ++
       [AddScalar "train/loss" (over_interval running_loss) step;
        AddScalar "train/lr" (lr (state w)) step;
        AddScalar "train/grad_norm" (over_interval running_grad) step;
        Flush];
     checkpoints := checkpoints w |}.

(** The optimisation steps alone: [train_step] on the batches in
    order, up to the first exception. *)
Fixpoint run_steps (s : S) (batches : list batch) : result unit * S :=
  match batches with
  | [] => (Ok tt, s)
  | data :: rest =>
      match train_step s data with
      | (Ok _, s') => run_steps s' rest
      | (Raise e, s') => (Raise e, s')
      end
  end.

(** The iteration on [data] raises [e]: in the denoiser, or else in
    the Chamfer distance, or else in the point-correspondence
    distance. *)
Definition fails (s : S) (data : batch) (e : exn) : Prop :=
  mbes_denoise s (squeeze0 (pcl_noisy data)) = Raise e
  ∨ ∃ den, mbes_denoise s (squeeze0 (pcl_noisy data)) = Ok den
      ∧ (chamfer_distance den (squeeze0 (pcl_clean data)) = Raise e
         ∨ ∃ c, chamfer_distance den (squeeze0 (pcl_clean data)) = Ok c
             ∧ point_corr_distance den (squeeze0 (pcl_clean data)) = Raise e).

(** The world after a validation pass that reported [avg_chamfer] and
    [avg_diff]. *)
Definition val_report (it : nat) (avg_chamfer avg_diff : fscalar)
    (w : world) : world :=
  {| state := state w;
     logger := logger w ++ [LogVal it avg_chamfer avg_diff];
     writer := writer w ++ [AddScalar "val/chamfer" avg_chamfer it;
                            AddScalar "val/diff" avg_diff it; Flush];
     checkpoints := checkpoints w |}.

(** The step that a writer event carries, if any. *)
Definition event_step (e : writer_event) : option nat :=
  match e with
  | AddScalar _ _ step => Some step
  | Flush => None
  end.

End Script.

Arguments world : clear implicits.
Arguments checkpoint : clear implicits.
Arguments M : clear implicits.

End Script.

(** ** Sample data *)

Module Demo.
Import Tensor.

Definition p0 : point := (1, 2, 3)%R.

(** A store with two patch samples, of two points and of one point. *)
Definition demo_store : gmap Collate.loc Collate.storage :=
  <[1%positive := Collate.FloatNx3 [p0; p0]]>
  (<[2%positive := Collate.FloatNx3 [p0; zero_point]]>
  (<[3%positive := Collate.Float3 p0]>
  (<[4%positive := Collate.FloatNx3 [p0]]>
  (<[5%positive := Collate.FloatNx3 [zero_point]]>
  (<[6%positive := Collate.Float3 zero_point]> ∅))))).

Definition demo_data : list Collate.sample :=
  [ {| Collate.d_pcl_clean := 1; Collate.d_pcl_noisy := 2;
       Collate.d_pcl_noisy_mean := 3 |};
    {| Collate.d_pcl_clean := 4; Collate.d_pcl_noisy := 5;
       Collate.d_pcl_noisy_mean := 6 |} ]%positive.

Definition demo_contents : list (cloud * cloud * point) :=
  [ ([p0; p0], [p0; zero_point], p0); ([p0], [zero_point], zero_point) ].

(** A validation batch of one sample, and the same clouds under
    another length. *)
Definition one_batch : Script.batch :=
  {| Script.pcl_clean := [[p0]]; Script.pcl_noisy := [[zero_point]];
     Script.pcl_noisy_mean := [zero_point]; Script.pcl_length := [1%Z] |}.

Definition relabelled_batch : Script.batch :=
  {| Script.pcl_clean := [[p0]]; Script.pcl_noisy := [[zero_point]];
     Script.pcl_noisy_mean := [p0]; Script.pcl_length := [0%Z] |}.

(** A run in which the model state counts the optimisation steps, the
    denoiser returns its input, and the second optimisation step is
    interrupted. *)
Definition denoise (_ : nat) (t : ftensor) : result ftensor := Ok t.

Definition chamfer (_ _ : ftensor) : result fscalar := Ok (Val 0).

Definition train_step (s : nat) (_ : Script.batch)
  : result (fscalar * fscalar) * nat :=
  if decide (s = 1) then (Raise KeyboardInterrupt, s)
  else (Ok (Val 0, Val 0), Datatypes.S s).

Definition lr (_ : nat) : fscalar := Val 1.

Definition scheduler_step (s : nat) : result unit * nat := (Ok tt, s).

Definition ckpt_mgr_save (_ : nat) (_ : fscalar) (_ : nat) : result unit :=
  Ok tt.

Definition w0 : Script.world nat :=
  {| Script.state := 0; Script.logger := []; Script.writer := [];
     Script.checkpoints := [] |}.

(** A batch whose clean cloud has three points and whose noisy cloud
    has two. *)
Definition mismatched_batch : Script.batch :=
  {| Script.pcl_clean := [[p0; p0; p0]];
     Script.pcl_noisy := [[zero_point; zero_point]];
     Script.pcl_noisy_mean := [zero_point]; Script.pcl_length := [3%Z] |}.

Definition bad_dataset : Config.args_dataset :=
  {| Config.transform_name := Some "bogus";
     Config.noise_min := 2; Config.noise_max := 1 |}.

End Demo.

(** * Properties *)

(** ** Configuration *)

Section ConfigFacts.
Import Config.

Lemma eqb_name_false (name other : string) :
  name ≠ other → String.eqb name other = false.
Proof. intros H. apply String.eqb_neq. exact H. Qed.

(** C4: [get_data_transform] knows three transform settings.  [None]
    gives no transform, ['add_noise_to_clean'] gives [Compose] of one
    [AddNoise] built from [(noise_min, noise_max)],
    ['add_noise_to_noisy'] gives [Compose] of one [AddNoiseToNoisyPCL]
    built from the same range, and every other name raises
    [ValueError]. *)
Theorem get_data_transform_kinds (mn mx : R) :
  get_data_transform
    {| transform_name := None; noise_min := mn; noise_max := mx |}
  = Ok None
  ∧ get_data_transform
      {| transform_name := Some "add_noise_to_clean";
         noise_min := mn; noise_max := mx |}
    = Ok (Some (Compose [AddNoise mn mx]))
  ∧ get_data_transform
      {| transform_name := Some "add_noise_to_noisy";
         noise_min := mn; noise_max := mx |}
    = Ok (Some (Compose [AddNoiseToNoisyPCL mn mx]))
  ∧ ∀ name : string,
      name ≠ "add_noise_to_clean" → name ≠ "add_noise_to_noisy" →
      get_data_transform
        {| transform_name := Some name; noise_min := mn; noise_max := mx |}
      = Raise (ValueError ("Invalid transform type: " +:+ name)).
Proof.
  repeat split; try reflexivity.
  intros name Hc Hn. unfold get_data_transform. cbn [transform_name].
  rewrite (eqb_name_false _ _ Hc), (eqb_name_false _ _ Hn). reflexivity.
Qed.

Lemma get_data_transform_kinds_witness :
  "scale"%string ≠ "add_noise_to_clean"%string
  ∧ "scale"%string ≠ "add_noise_to_noisy"%string
  ∧ get_data_transform
      {| transform_name := Some "scale"; noise_min := 1; noise_max := 2 |}
    = Raise (ValueError "Invalid transform type: scale").
Proof.
  split; [discriminate|]. split; [discriminate|].
  apply (proj2 (proj2 (proj2 (get_data_transform_kinds 1 2))));
    discriminate.
Defined.

Lemma get_data_transform_recognised (a : args_dataset) :
  recognised a →
  get_data_transform a = Ok None
  ∨ get_data_transform a
    = Ok (Some (Compose [AddNoise (noise_min a) (noise_max a)]))
  ∨ get_data_transform a
    = Ok (Some (Compose [AddNoiseToNoisyPCL (noise_min a) (noise_max a)])).
Proof.
  unfold recognised, get_data_transform. intros [H|[H|H]]; rewrite H; auto.
Qed.


(** The dispatch with the classes modelled from the spec is the
    dispatch with constructors that always return. *)
Lemma get_data_transform_instance (a : args_dataset) :
  get_data_transform a
  = Transforms.get_data_transform (λ mn mx, Ok (AddNoise mn mx))
      (λ mn mx, Ok (AddNoiseToNoisyPCL mn mx)) (λ ts, Ok (Compose ts)) a.
Proof.
  unfold get_data_transform, Transforms.get_data_transform.
  destruct (transform_name a) as [name|]; [|reflexivity].
  destruct (String.eqb name "add_noise_to_clean"); [reflexivity|].
  destruct (String.eqb name "add_noise_to_noisy"); reflexivity.
Qed.

End ConfigFacts.

Section RangeFacts.
Import Config.

Context {T C : Type}.
Variable mk_clean mk_noisy : R → R → result T.
Variable mk_compose : list T → result C.

Local Abbreviation dispatch :=
  (Transforms.get_data_transform mk_clean mk_noisy mk_compose).


End RangeFacts.


(** ** The point-correspondence distance *)

Section MetricFacts.
Import Tensor.

Lemma collect_zip_ok {A B C} (f : A → B → C) (xs : list A) (ys : list B) :
  collect (zip_with (λ x y, Ok (f x y)) xs ys) = Ok (zip_with f xs ys).
Proof.
  revert ys. induction xs as [|x xs IH]; intros [|y ys]; cbn; try reflexivity.
  rewrite IH. reflexivity.
Qed.

Lemma collect_map_ok {A C} (f : A → C) (xs : list A) :
  collect (map (λ x, Ok (f x)) xs) = Ok (map f xs).
Proof.
  induction xs as [|x xs IH]; cbn; [reflexivity|]. rewrite IH. reflexivity.
Qed.

Lemma cloud_sub_same_length (a b : cloud) :
  length a = length b → cloud_sub a b = Ok (zip_with psub a b).
Proof.
  intros H. unfold cloud_sub, broadcast.
  destruct (decide (length a = length b)); [|contradiction].
  apply collect_zip_ok.
Qed.

Lemma cloud_sub_left_single (p : point) (b : cloud) :
  length b ≠ 1 → cloud_sub [p] b = Ok (map (psub p) b).
Proof.
  intros H. unfold cloud_sub, broadcast.
  destruct (decide (length [p] = length b)) as [E|_].
  - cbn in E. congruence.
  - apply (collect_map_ok (psub p)).
Qed.

Lemma cloud_sub_right_single (a : cloud) (q : point) :
  length a ≠ 1 → cloud_sub a [q] = Ok (map (λ p, psub p q) a).
Proof.
  intros H. unfold cloud_sub, broadcast.
  destruct (decide (length a = length [q])) as [E|_].
  - cbn in E. congruence.
  - destruct a as [|x [|x' a]]; cbn in H; try congruence.
    + reflexivity.
    + apply (collect_map_ok (λ p, psub p q)).
Qed.

Lemma cloud_sub_mismatch (a b : cloud) :
  length a ≠ length b → length a ≠ 1 → length b ≠ 1 →
  cloud_sub a b
  = Raise (RuntimeError "The size of tensor a must match the size of tensor b").
Proof.
  intros Hab Ha Hb. unfold cloud_sub, broadcast.
  destruct (decide (length a = length b)); [contradiction|].
  destruct a as [|x [|x' a]], b as [|y [|y' b]]; cbn in *;
    first [reflexivity | lia].
Qed.

Lemma vector_norm_zero : vector_norm zero_point = 0%R.
Proof.
  unfold vector_norm, zero_point.
  replace (0 * 0 + 0 * 0 + 0 * 0)%R with 0%R by ring. apply sqrt_0.
Qed.

Lemma psub_diag (p : point) : psub p p = zero_point.
Proof.
  destruct p as [[a b] c]. unfold psub, zero_point.
  repeat f_equal; ring.
Qed.

Lemma psub_padd_l (p v : point) : psub (padd p v) p = v.
Proof.
  destruct p as [[a b] c], v as [[x y] z]. unfold psub, padd.
  repeat f_equal; ring.
Qed.

Lemma vector_norm_psub_sym (p q : point) :
  vector_norm (psub p q) = vector_norm (psub q p).
Proof.
  destruct p as [[a b] c], q as [[x y] z]. unfold vector_norm, psub.
  f_equal. ring.
Qed.

Lemma zip_with_diag {A B} (f : A → A → B) (l : list A) :
  zip_with f l l = map (λ x, f x x) l.
Proof. induction l as [|x l IH]; cbn; [reflexivity|]. by rewrite IH. Qed.

Lemma zip_with_map_l_diag {A B} (f : A → A → B) (g : A → A) (l : list A) :
  zip_with f (map g l) l = map (λ x, f (g x) x) l.
Proof. induction l as [|x l IH]; cbn; [reflexivity|]. by rewrite IH. Qed.

Lemma zip_with_map_r_diag {A B} (f : A → A → B) (g : A → A) (l : list A) :
  zip_with f l (map g l) = map (λ x, f x (g x)) l.
Proof. induction l as [|x l IH]; cbn; [reflexivity|]. by rewrite IH. Qed.

(** The mean of a tensor whose entries all equal [k]. *)
Lemma mean_constant {A} (f : A → R) (k : R) (l : list A) :
  l ≠ [] → (∀ x, f x = k) → mean (map f l) = Val k.
Proof.
  intros Hne Hf.
  assert (HS : Rsum (map f l) = (INR (length l) * k)%R).
  { clear Hne. induction l as [|x l IH]; [cbn; ring|].
    change (Rsum (map f (x :: l))) with (f x + Rsum (map f l))%R.
    rewrite IH, Hf. change (length (x :: l)) with (Datatypes.S (length l)).
    rewrite S_INR. ring. }
  destruct l as [|x l]; [congruence|].
  unfold mean. change (map f (x :: l)) with (f x :: map f l) at 1.
  cbv iota. rewrite HS, length_map. f_equal.
  field. apply not_0_INR. discriminate.
Qed.

Lemma point_corr_distance_same_length (den clean : cloud) :
  length den = length clean →
  point_corr_distance (T2 den) (T2 clean)
  = Ok (mean (map vector_norm (zip_with psub den clean))).
Proof.
  intros H. unfold point_corr_distance, tsub.
  rewrite (cloud_sub_same_length _ _ H). reflexivity.
Qed.

(** C1, as stated, fails: a denoised cloud of one point against a
    clean cloud of two points is not reported; the single point is
    broadcast and the value 5/2 comes out. *)
Lemma point_corr_distance_broadcasts :
  length [zero_point] ≠ length [(3, 4, 0)%R; zero_point]
  ∧ point_corr_distance (T2 [zero_point]) (T2 [(3, 4, 0)%R; zero_point])
    = Ok (Val (5 / 2)).
Proof.
  split; [cbn; lia|].
  unfold point_corr_distance, tsub.
  rewrite cloud_sub_left_single by (cbn; lia).
  cbn [rbind norms map mean length Rsum foldr].
  rewrite psub_diag, vector_norm_zero.
  unfold zero_point, psub, vector_norm.
  replace ((0 - 3) * (0 - 3) + (0 - 4) * (0 - 4) + (0 - 0) * (0 - 0))%R
    with (5 * 5)%R by ring.
  rewrite sqrt_square by lra.
  do 2 f_equal. cbn. lra.
Qed.

(** C1, amended: for clouds of different point counts the metric
    raises torch's [RuntimeError] when neither cloud has exactly one
    point; when one of them is a single point, that point is broadcast
    against every point of the other cloud and the mean of those
    distances is returned without a report. *)
Theorem point_corr_distance_mismatch (den clean : cloud) :
  length den ≠ length clean →
  (length den ≠ 1 → length clean ≠ 1 →
   point_corr_distance (T2 den) (T2 clean)
   = Raise (RuntimeError
       "The size of tensor a must match the size of tensor b"))
  ∧ (∀ p, den = [p] →
     point_corr_distance (T2 den) (T2 clean)
     = Ok (mean (map (λ q, vector_norm (psub p q)) clean)))
  ∧ (∀ q, clean = [q] →
     point_corr_distance (T2 den) (T2 clean)
     = Ok (mean (map (λ p, vector_norm (psub p q)) den))).
Proof.
  intros Hne. repeat split.
  - intros Hd Hc. unfold point_corr_distance, tsub.
    rewrite (cloud_sub_mismatch _ _ Hne Hd Hc). reflexivity.
  - intros p ->. unfold point_corr_distance, tsub.
    rewrite cloud_sub_left_single by (cbn in Hne; congruence).
    cbn [rbind norms]. rewrite map_map. reflexivity.
  - intros q ->. unfold point_corr_distance, tsub.
    rewrite cloud_sub_right_single by (cbn in Hne; congruence).
    cbn [rbind norms]. rewrite map_map. reflexivity.
Qed.

Lemma point_corr_distance_mismatch_witness :
  length [zero_point; zero_point]
    ≠ length [zero_point; zero_point; zero_point]
  ∧ point_corr_distance (T2 [zero_point; zero_point])
                        (T2 [zero_point; zero_point; zero_point])
    = Raise (RuntimeError
        "The size of tensor a must match the size of tensor b").
Proof.
  split; [cbn; lia|].
  refine (proj1 (point_corr_distance_mismatch
                   [zero_point; zero_point]
                   [zero_point; zero_point; zero_point] _) _ _);
    cbn; lia.
Defined.




End MetricFacts.

(** ** The Langevin denoiser *)

Section LangevinFacts.
Import Tensor Langevin.

Lemma zero_displacement (k : R) (x : cloud) :
  zip_with (λ p d, padd p (pscale k d)) x (zero_model x) = x.
Proof.
  unfold zero_model. induction x as [|p x IH]; cbn; [reflexivity|].
  rewrite IH. f_equal.
  destruct p as [[a b] c]. unfold padd, pscale, zero_point.
  repeat f_equal; ring.
Qed.

Lemma ld_zero_model (step_size : nat → R) (T : nat) (s : ld_state) :
  ld_x (Nat.iter T (ld_step zero_model step_size) s) = ld_x s.
Proof.
  induction T as [|T IH]; [reflexivity|].
  cbn [Nat.iter nat_rect]. unfold ld_step at 1. cbn [ld_x].
  rewrite zero_displacement. exact IH.
Qed.

(** C3: the Langevin denoiser returns its input unchanged when it is
    run for [T = 0] steps, whatever the model, and when the model
    predicts a zero displacement for every point, whatever [T] and the
    step sizes. *)
Theorem langevin_denoise_identity :
  (∀ model step_size x, langevin_denoise model step_size 0 x = x)
  ∧ (∀ step_size T x, langevin_denoise zero_model step_size T x = x).
Proof.
  split.
  - reflexivity.
  - intros step_size T x. unfold langevin_denoise.
    rewrite ld_zero_model. reflexivity.
Qed.

End LangevinFacts.

(** ** The validation pass *)

Section ValidateFacts.
Import Tensor Script.

Context {S : Type}.
Variable mbes_denoise : S → ftensor → result ftensor.
Variable chamfer_distance : ftensor → ftensor → result fscalar.

Local Abbreviation validate_body := (Script.validate_body mbes_denoise chamfer_distance).
Local Abbreviation validate_loop := (Script.validate_loop mbes_denoise chamfer_distance).
Local Abbreviation validate := (Script.validate mbes_denoise chamfer_distance).
Local Abbreviation measured := (Script.measured mbes_denoise chamfer_distance).

Lemma validate_loop_ok (s : S) (loader : list batch)
    (ms : list (ftensor * fscalar * fscalar)) (acc : val_lists) :
  Forall2 (measured s) loader ms →
  validate_loop s loader acc
  = Ok {| all_clean := all_clean acc ++ map (λ d, squeeze0 (pcl_clean d)) loader;
          all_noisy := all_noisy acc ++ map (λ d, squeeze0 (pcl_noisy d)) loader;
          all_denoised := all_denoised acc ++ map (λ m, m.1.1) ms;
          all_length := all_length acc ++ map pcl_length loader;
          all_chamfer := all_chamfer acc ++ map (λ m, m.1.2) ms;
          all_point_corr_distance :=
            all_point_corr_distance acc ++ map snd ms |}.
Proof.
  intros H. revert acc.
  induction H as [|data [[den ch] d] loader ms (Hden & Hch & Hd) _ IH];
    intros acc.
  - cbn. rewrite !app_nil_r. destruct acc; reflexivity.
  - cbn [Script.validate_loop]. unfold Script.validate_body.
    rewrite Hden. cbn [rbind]. rewrite Hch. cbn [rbind]. rewrite Hd.
    cbn [rbind]. rewrite IH. cbn [all_clean all_noisy all_denoised all_length
      all_chamfer all_point_corr_distance map fst snd].
    rewrite <- !app_assoc. reflexivity.
Qed.

Lemma finite_items_Val (rs : list R) : finite_items (map Val rs) = Some rs.
Proof.
  induction rs as [|r rs IH]; cbn; [reflexivity|]. rewrite IH. reflexivity.
Qed.

(** On numbers, [mean_items] is the arithmetic mean. *)
Lemma mean_items_Val (rs : list R) :
  rs ≠ [] → mean_items (map Val rs) = Val (Rsum rs / INR (length rs)).
Proof.
  intros H. unfold mean_items. rewrite finite_items_Val.
  destruct rs; [congruence|reflexivity].
Qed.

(** C6: a validation pass over a non-empty loader on which every
    iteration yields its two metrics returns the pair (mean of the
    Chamfer distances, mean of the point-correspondence distances) of
    the loader's items, in that order, and hands the two values to the
    writer under ['val/chamfer'] and ['val/diff'].  On numbers the mean
    is the sum divided by the number of items; the loader yields one
    sample per item when the validation batch size is 1. *)
Theorem validate_returns_means (val_loader : list batch) (it : nat)
    (w : world S) (ms : list (ftensor * fscalar * fscalar)) :
  val_loader ≠ [] →
  Forall2 (measured (state w)) val_loader ms →
  let avg_chamfer := mean_items (map (λ m, m.1.2) ms) in
  let avg_diff := mean_items (map snd ms) in
  validate val_loader it w
  = (Ok (avg_chamfer, avg_diff),
     {| state := state w;
        logger := logger w ++ [LogVal it avg_chamfer avg_diff];
        writer := writer w ++ [AddScalar "val/chamfer" avg_chamfer it;
                               AddScalar "val/diff" avg_diff it; Flush];
        checkpoints := checkpoints w |})
  ∧ (∀ cs, map (λ m, m.1.2) ms = map Val cs →
       avg_chamfer = Val (Rsum cs / INR (length val_loader)))
  ∧ (∀ ds, map snd ms = map Val ds →
       avg_diff = Val (Rsum ds / INR (length val_loader))).
Proof.
  intros Hne HF avg_chamfer avg_diff.
  assert (Hlen : length ms = length val_loader)
    by (symmetry; eapply Forall2_length; exact HF).
  repeat split.
  - unfold Script.validate, bind, get_state, lift, logger_info, writer_call, ret.
    rewrite (validate_loop_ok _ _ _ _ HF).
    cbn. rewrite <- !app_assoc. reflexivity.
  - intros cs E. subst avg_chamfer. rewrite E.
    assert (length cs = length val_loader) as <-.
    { pose proof (f_equal length E) as HL. rewrite !length_map in HL.
      congruence. }
    apply mean_items_Val. intros ->. destruct ms; [|discriminate].
    destruct val_loader; [congruence|discriminate].
  - intros ds E. subst avg_diff. rewrite E.
    assert (length ds = length val_loader) as <-.
    { pose proof (f_equal length E) as HL. rewrite !length_map in HL.
      congruence. }
    apply mean_items_Val. intros ->. destruct ms; [|discriminate].
    destruct val_loader; [congruence|discriminate].
Qed.

End ValidateFacts.

Lemma validate_returns_means_witness :
  let d := Tensor.mean
             [Tensor.vector_norm (Tensor.psub Tensor.zero_point Demo.p0)] in
  let ms := [(Tensor.T2 [Tensor.zero_point], Tensor.Val 0, d)] in
  [Demo.one_batch] ≠ []
  ∧ Forall2 (Script.measured Demo.denoise Demo.chamfer (Script.state Demo.w0))
            [Demo.one_batch] ms
  ∧ (Script.validate Demo.denoise Demo.chamfer [Demo.one_batch] 7 Demo.w0).1
    = Ok (Tensor.mean_items [Tensor.Val 0], Tensor.mean_items [d]).
Proof.
  intros d ms.
  assert (Hne : [Demo.one_batch] ≠ []) by discriminate.
  assert (Hms : Forall2 (Script.measured Demo.denoise Demo.chamfer
                           (Script.state Demo.w0)) [Demo.one_batch] ms).
  { repeat constructor. }
  split; [exact Hne|]. split; [exact Hms|].
  exact (f_equal fst (proj1 (validate_returns_means Demo.denoise Demo.chamfer
                               [Demo.one_batch] 7 Demo.w0 ms Hne Hms))).
Defined.

Section PaddingFacts.
Import Tensor Script.

Context {S : Type}.
Variable mbes_denoise : S → ftensor → result ftensor.
Variable chamfer_distance : ftensor → ftensor → result fscalar.

Local Abbreviation validate_body := (Script.validate_body mbes_denoise chamfer_distance).
Local Abbreviation validate_loop := (Script.validate_loop mbes_denoise chamfer_distance).
Local Abbreviation validate := (Script.validate mbes_denoise chamfer_distance).

Lemma validate_loop_same_clouds (s : S) (vl vl' : list batch)
    (acc acc' : val_lists) :
  Forall2 same_clouds vl vl' → same_metrics acc acc' →
  same_outcome (validate_loop s vl acc) (validate_loop s vl' acc').
Proof.
  intros H. revert acc acc'.
  induction H as [|d d' vl vl' [Hn Hc] _ IH]; intros acc acc' [Ha Hb].
  - cbn. split; assumption.
  - cbn [Script.validate_loop]. unfold Script.validate_body.
    rewrite Hn, Hc.
    destruct (mbes_denoise s (squeeze0 (pcl_noisy d'))) as [den|e];
      cbn [rbind]; [|reflexivity].
    destruct (chamfer_distance den (squeeze0 (pcl_clean d'))) as [ch|e];
      cbn [rbind]; [|reflexivity].
    destruct (point_corr_distance den (squeeze0 (pcl_clean d'))) as [pd|e];
      cbn [rbind]; [|reflexivity].
    apply IH. split; cbn; congruence.
Qed.

Lemma Rsum_app (l k : list R) : Rsum (l ++ k) = (Rsum l + Rsum k)%R.
Proof.
  induction l as [|x l IH].
  - change (Rsum k = (0 + Rsum k)%R). ring.
  - change (x + Rsum (l ++ k) = (x + Rsum l) + Rsum k)%R.
    rewrite IH. ring.
Qed.


End PaddingFacts.


(** An instance of the divisor: one valid row at distance 5 and one
    padding row give 5/2, not 5. *)
Example padding_row_halves_distance :
  Tensor.point_corr_distance
    (Tensor.T2 [(3, 4, 0)%R; Tensor.zero_point])
    (Tensor.T2 [Tensor.zero_point; Tensor.zero_point])
  = Ok (Tensor.Val (5 / 2))
  ∧ Tensor.point_corr_distance
      (Tensor.T2 [(3, 4, 0)%R]) (Tensor.T2 [Tensor.zero_point])
    = Ok (Tensor.Val 5).
Proof.
  assert (H5 : Tensor.vector_norm (Tensor.psub (3, 4, 0)%R Tensor.zero_point)
               = 5%R).
  { unfold Tensor.zero_point, Tensor.psub, Tensor.vector_norm.
    replace ((3 - 0) * (3 - 0) + (4 - 0) * (4 - 0) + (0 - 0) * (0 - 0))%R
      with (5 * 5)%R by ring.
    apply sqrt_square. lra. }
  split.
  - rewrite point_corr_distance_same_length by reflexivity.
    cbn [zip_with map Tensor.mean length Tensor.Rsum foldr].
    rewrite H5, psub_diag, vector_norm_zero. do 2 f_equal. cbn. lra.
  - rewrite point_corr_distance_same_length by reflexivity.
    cbn [zip_with map Tensor.mean length Tensor.Rsum foldr].
    rewrite H5. do 2 f_equal. cbn. lra.
Qed.

(** ** The main loop *)

Section MainFacts.
Import Tensor Script.

Context {S : Type}.
Variable mbes_denoise : S → ftensor → result ftensor.
Variable chamfer_distance : ftensor → ftensor → result fscalar.
Variable train_step : S → batch → result (fscalar * fscalar) * S.
Variable lr : S → fscalar.
Variable scheduler_step : S → result unit * S.
Variable ckpt_mgr_save : S → fscalar → nat → result unit.
Variable log_interval : Z.
Variable max_epochs : nat.
Variable train_loader val_loader : list batch.

Local Abbreviation train_loop := (Script.train_loop train_step lr log_interval).
Local Abbreviation train_for_one_epoch :=
  (Script.train_for_one_epoch train_step lr log_interval train_loader).
Local Abbreviation validate :=
  (Script.validate mbes_denoise chamfer_distance val_loader).
Local Abbreviation ckpt_save := (Script.ckpt_save ckpt_mgr_save).
Local Abbreviation epoch_body :=
  (Script.epoch_body mbes_denoise chamfer_distance train_step lr
     scheduler_step ckpt_mgr_save log_interval train_loader val_loader).
Local Abbreviation epochs :=
  (Script.epochs mbes_denoise chamfer_distance train_step lr
     scheduler_step ckpt_mgr_save log_interval train_loader val_loader).
Local Abbreviation main_loop :=
  (Script.main_loop mbes_denoise chamfer_distance train_step lr
     scheduler_step ckpt_mgr_save log_interval max_epochs
     train_loader val_loader).
Local Abbreviation keeps_checkpoints := (Script.keeps_checkpoints (S:=S)).


Lemma keeps_ret {A} (a : A) : keeps_checkpoints (ret a).
Proof. intros w. reflexivity. Qed.

Lemma keeps_lift {A} (r : result A) : keeps_checkpoints (lift r).
Proof. intros w. reflexivity. Qed.

Lemma keeps_get_state : keeps_checkpoints get_state.
Proof. intros w. reflexivity. Qed.

Lemma keeps_logger_info (l : log_line) : keeps_checkpoints (logger_info l).
Proof. intros w. reflexivity. Qed.

Lemma keeps_writer_call (e : writer_event) : keeps_checkpoints (writer_call e).
Proof. intros w. reflexivity. Qed.

Lemma keeps_on_state {A} (f : S → result A * S) : keeps_checkpoints (on_state f).
Proof. intros w. unfold on_state. destruct (f (state w)). reflexivity. Qed.

Lemma keeps_bind {A B} (c : M S A) (k : A → M S B) :
  keeps_checkpoints c → (∀ a, keeps_checkpoints (k a)) →
  keeps_checkpoints (bind c k).
Proof.
  intros Hc Hk w. unfold bind. specialize (Hc w).
  destruct (c w) as [[a|e] w']; cbn in *; [rewrite Hk|]; exact Hc.
Qed.

Create HintDb keeps.

Hint Resolve keeps_ret keeps_lift keeps_get_state keeps_logger_info
  keeps_writer_call keeps_on_state : keeps.

Ltac keeps_step :=
  first [ apply keeps_bind; [solve [auto with keeps] | intros ?]
        | solve [auto with keeps] ].

Lemma keeps_train_loop (epoch_num len i : nat) (rest : list batch)
    (running_loss running_grad : fscalar) :
  keeps_checkpoints (train_loop epoch_num len i rest running_loss running_grad).
Proof.
  revert i running_loss running_grad.
  induction rest as [|data rest IH]; intros i running_loss running_grad.
  - apply keeps_ret.
  - cbn [Script.train_loop].
    apply keeps_bind; [auto with keeps|]. intros [loss grad].
    keeps_step. destruct (decide _).
    + cbv zeta. repeat keeps_step.
    + apply IH.
Qed.

Lemma keeps_train_for_one_epoch (epoch_num : nat) :
  keeps_checkpoints (train_for_one_epoch epoch_num).
Proof. apply keeps_train_loop. Qed.

Lemma keeps_validate (it : nat) : keeps_checkpoints (validate it).
Proof. unfold Script.validate. repeat keeps_step. Qed.

Lemma ckpt_save_cases (score : fscalar) (step : nat) (w : world S) :
  (∃ e, ckpt_save score step w = (Raise e, w))
  ∨ (∃ w', ckpt_save score step w = (Ok tt, w')
        ∧ checkpoints w' = checkpoints w ++
            [{| ck_state := state w; ck_score := score; ck_step := step |}]).
Proof.
  unfold Script.ckpt_save.
  destruct (ckpt_mgr_save (state w) score step) as [[]|e]; eauto.
Qed.

(** One pass through the loop body writes at most one checkpoint, the
    one of its epoch; a pass that ends normally has written it. *)
Lemma epoch_body_checkpoints (epoch : nat) (w : world S) :
  let '(r, w') := epoch_body epoch w in
  (checkpoints w' = checkpoints w ∧ ∃ e, r = Raise e)
  ∨ (∃ ck, ck_step ck = epoch ∧ checkpoints w' = checkpoints w ++ [ck]).
Proof.
  unfold Script.epoch_body, bind at 1.
  pose proof (keeps_train_for_one_epoch epoch w) as Ht.
  destruct (train_for_one_epoch epoch w) as [[[]|e] w1]; cbn in Ht;
    [|left; eauto].
  unfold bind at 1. pose proof (keeps_validate epoch w1) as Hv.
  destruct (validate epoch w1) as [[[cd_loss diff_loss]|e] w2]; cbn in Hv;
    [|left; split; [congruence|eauto]].
  unfold bind at 1.
  destruct (ckpt_save_cases diff_loss epoch w2) as [[e He]|(w3 & He & Hck)];
    rewrite He.
  - left. split; [congruence|eauto].
  - pose proof (keeps_on_state scheduler_step w3) as Hs.
    destruct (on_state scheduler_step w3) as [r w4]. cbn in Hs.
    right. eexists. split; [|rewrite Hs, Hck, Hv, Ht; reflexivity].
    reflexivity.
Qed.

(** The checkpoints after [n] passes, complete or cut short: those
    before, then one per epoch whose [save] returned, in order. *)
Lemma epochs_checkpoints (n first : nat) (w : world S) :
  ∃ new, checkpoints (epochs n first w).2 = checkpoints w ++ new
         ∧ map ck_step new = seq first (length new)
         ∧ length new ≤ n.
Proof.
  revert first w. induction n as [|n IH]; intros first w.
  - exists []. cbn. rewrite app_nil_r. auto.
  - cbn [Script.epochs]. unfold bind.
    pose proof (epoch_body_checkpoints first w) as Hb.
    destruct (epoch_body first w) as [r w1].
    destruct Hb as [[Hk [e ->]]|(ck & Hstep & Hk)].
    + exists []. cbn. rewrite app_nil_r. split; [exact Hk|]. split; [done|lia].
    + destruct r as [[]|e].
      * destruct (IH (Datatypes.S first) w1) as (new & Hn & Hs & Hl).
        exists (ck :: new). rewrite Hn, Hk, <- app_assoc. cbn.
        rewrite Hs, Hstep. split; [done|]. split; [done|lia].
      * exists [ck]. cbn. rewrite Hstep. split; [exact Hk|].
        split; [done|lia].
Qed.

(** C7: when a [KeyboardInterrupt] comes out of the loop of the main
    script, the handler turns it into a normal end: the outcome is not
    an exception, one line ['Terminating...'] is logged, and nothing
    else changes.  In particular no checkpoint is written after the
    interrupt: the written checkpoints are those from before the loop
    followed by one per epoch whose [save] had returned, the most
    recent one included. *)
Theorem keyboard_interrupt_is_caught (w w' : world S) :
  epochs max_epochs 0 w = (Raise KeyboardInterrupt, w') →
  main_loop w
  = (Ok tt, {| state := state w';
               logger := logger w' ++ [LogInfo "Terminating..."];
               writer := writer w';
               checkpoints := checkpoints w' |})
  ∧ ∃ new, checkpoints (main_loop w).2 = checkpoints w ++ new
           ∧ checkpoints (main_loop w).2 = checkpoints w'
           ∧ map ck_step new = seq 0 (length new)
           ∧ length new ≤ max_epochs.
Proof.
  intros H.
  assert (Hm : main_loop w
    = (Ok tt, {| state := state w';
                 logger := logger w' ++ [LogInfo "Terminating..."];
                 writer := writer w';
                 checkpoints := checkpoints w' |})).
  { unfold Script.main_loop. rewrite H. reflexivity. }
  split; [exact Hm|].
  destruct (epochs_checkpoints max_epochs 0 w) as (new & Hn & Hs & Hl).
  rewrite H in Hn. cbn in Hn.
  exists new. rewrite Hm. cbn. auto.
Qed.

End MainFacts.

Lemma keyboard_interrupt_is_caught_witness :
  let run := Script.epochs Demo.denoise Demo.chamfer Demo.train_step Demo.lr
               Demo.scheduler_step Demo.ckpt_mgr_save 1
               [Demo.one_batch] [Demo.one_batch] 2 0 Demo.w0 in
  run = (Raise KeyboardInterrupt, run.2)
  ∧ (Script.main_loop Demo.denoise Demo.chamfer Demo.train_step Demo.lr
       Demo.scheduler_step Demo.ckpt_mgr_save 1 2
       [Demo.one_batch] [Demo.one_batch] Demo.w0).1 = Ok tt
  ∧ map Script.ck_step
      (Script.checkpoints
         (Script.main_loop Demo.denoise Demo.chamfer Demo.train_step Demo.lr
            Demo.scheduler_step Demo.ckpt_mgr_save 1 2
            [Demo.one_batch] [Demo.one_batch] Demo.w0).2) = [0].
Proof.
  intros run.
  assert (H : run = (Raise KeyboardInterrupt, run.2)) by reflexivity.
  split; [exact H|].
  pose proof (keyboard_interrupt_is_caught Demo.denoise Demo.chamfer
                Demo.train_step Demo.lr Demo.scheduler_step
                Demo.ckpt_mgr_save 1 2 [Demo.one_batch] [Demo.one_batch]
                Demo.w0 run.2 H) as [Hm _].
  split.
  - exact (f_equal fst Hm).
  - rewrite Hm. reflexivity.
Defined.

(** ** The collation function *)

Section CollateFacts.
Import Tensor Collate.

Lemma bind_ok {W A B} (c : eff W A) (k : A → eff W B) (w w' : W) (a : A) :
  c w = (Ok a, w') → bind c k w = k a w'.
Proof. intros H. unfold bind. rewrite H. reflexivity. Qed.

Lemma bind_raise {W A B} (c : eff W A) (k : A → eff W B) (w w' : W) e :
  c w = (Raise e, w') → bind c k w = (Raise e, w').
Proof. intros H. unfold bind. rewrite H. reflexivity. Qed.

Lemma bind_inv_ok {W A B} (c : eff W A) (k : A → eff W B) (w w' : W) (b : B) :
  bind c k w = (Ok b, w') → ∃ a w1, c w = (Ok a, w1) ∧ k a w1 = (Ok b, w').
Proof.
  unfold bind. destruct (c w) as [[a|e] w1]; [eauto|discriminate].
Qed.

(** *** Allocation and growth of the store *)

Lemma alloc_fresh (t : storage) (h : store) :
  alloc t h = (Ok (fresh (dom h)), <[fresh (dom h) := t]> h)
  ∧ h !! fresh (dom h) = None.
Proof. split; [reflexivity|]. apply not_elem_of_dom, is_fresh. Qed.

Lemma grows_alloc (t : storage) : grows (alloc t).
Proof.
  intros h. cbn. apply insert_subseteq, not_elem_of_dom, is_fresh.
Qed.

Lemma grows_ret {A} (a : A) : grows (ret a).
Proof. intros h. reflexivity. Qed.

Lemma grows_lift {A} (r : result A) : grows (lift r).
Proof. intros h. reflexivity. Qed.

Lemma grows_read (l : loc) : grows (read l).
Proof. intros h. unfold read. destruct (h !! l); reflexivity. Qed.

Lemma grows_bind {A B} (c : eff store A) (k : A → eff store B) :
  grows c → (∀ a, grows (k a)) → grows (bind c k).
Proof.
  intros Hc Hk h. unfold bind. specialize (Hc h).
  destruct (c h) as [[a|e] h1]; cbn in *; [|exact Hc].
  etrans; [exact Hc|apply Hk].
Qed.

Lemma grows_for_each {A B} (f : A → eff store B) (l : list A) :
  (∀ a, grows (f a)) → grows (for_each f l).
Proof.
  intros Hf. induction l as [|x l IH]; cbn [for_each].
  - apply grows_ret.
  - apply grows_bind; [apply Hf|]. intros y.
    apply grows_bind; [exact IH|]. intros ys. apply grows_ret.
Qed.

Lemma reads_only_grows {A} (c : eff store A) : reads_only c → grows c.
Proof. intros H h. rewrite H. reflexivity. Qed.

Lemma reads_only_read (l : loc) : reads_only (read l).
Proof. intros h. unfold read. destruct (h !! l); reflexivity. Qed.

Lemma reads_only_bind {A B} (c : eff store A) (k : A → eff store B) :
  reads_only c → (∀ a, reads_only (k a)) → reads_only (bind c k).
Proof.
  intros Hc Hk h. unfold bind. specialize (Hc h).
  destruct (c h) as [[a|e] h1]; cbn in *; subst; [apply Hk|reflexivity].
Qed.

Lemma reads_only_for_each {A B} (f : A → eff store B) (l : list A) :
  (∀ a, reads_only (f a)) → reads_only (for_each f l).
Proof.
  intros Hf. induction l as [|x l IH]; cbn [for_each].
  - intros h. reflexivity.
  - apply reads_only_bind; [apply Hf|]. intros y.
    apply reads_only_bind; [exact IH|]. intros ys h. reflexivity.
Qed.

Lemma reads_only_shape0 (l : loc) : reads_only (shape0 l).
Proof.
  apply reads_only_bind; [apply reads_only_read|].
  intros [] h; reflexivity.
Qed.

Lemma reads_only_read_cloud (l : loc) : reads_only (read_cloud l).
Proof.
  apply reads_only_bind; [apply reads_only_read|].
  intros [] h; reflexivity.
Qed.

Lemma reads_only_read_point (l : loc) : reads_only (read_point l).
Proof.
  apply reads_only_bind; [apply reads_only_read|].
  intros [] h; reflexivity.
Qed.

Lemma grows_clone_detach (l : loc) : grows (c <- clone l; detach c).
Proof.
  apply grows_bind.
  - apply grows_bind; [apply grows_read|]. intros t. apply grows_alloc.
  - intros c. apply grows_ret.
Qed.

(** A call that allocates its result after reading: the result is
    the location that was free in the store of the call. *)
Lemma read_then_alloc {A} (c : eff store A) (f : A → storage)
    (h h' : store) (l : loc) :
  reads_only c →
  bind c (λ a, alloc (f a)) h = (Ok l, h') →
  ∃ a, c h = (Ok a, h) ∧ l = fresh (dom h) ∧ h' = <[l := f a]> h.
Proof.
  intros Hc H. apply bind_inv_ok in H as (a & h1 & Hca & Ha).
  pose proof (Hc h) as Hh. rewrite Hca in Hh. cbn in Hh. subst h1.
  exists a. cbn in Ha. inversion Ha; subst. auto.
Qed.

Lemma pad_sequence_inv (seqs : list loc) (h h' : store) (l : loc) :
  pad_sequence seqs h = (Ok l, h') →
  ∃ cs, for_each read_cloud seqs h = (Ok cs, h)
        ∧ l = fresh (dom h) ∧ h' = <[l := FloatBxLx3 (padded cs)]> h.
Proof.
  unfold pad_sequence. destruct seqs as [|s0 seqs]; [discriminate|].
  intros H.
  apply (read_then_alloc _ (λ cs, FloatBxLx3 (padded cs))) in H; [exact H|].
  apply reads_only_for_each, reads_only_read_cloud.
Qed.

Lemma stack_inv (ts : list loc) (h h' : store) (l : loc) :
  stack ts h = (Ok l, h') →
  ∃ ps, for_each read_point ts h = (Ok ps, h)
        ∧ l = fresh (dom h) ∧ h' = <[l := FloatBx3 ps]> h.
Proof.
  unfold stack. destruct ts as [|t0 ts]; [discriminate|].
  intros H.
  apply (read_then_alloc _ (λ ps, FloatBx3 ps)) in H; [exact H|].
  apply reads_only_for_each, reads_only_read_point.
Qed.

Lemma grows_pad_sequence (seqs : list loc) : grows (pad_sequence seqs).
Proof.
  unfold pad_sequence. destruct seqs; [apply grows_lift|].
  apply grows_bind; [|intros; apply grows_alloc].
  apply reads_only_grows, reads_only_for_each, reads_only_read_cloud.
Qed.

Lemma grows_stack (ts : list loc) : grows (stack ts).
Proof.
  unfold stack. destruct ts; [apply grows_lift|].
  apply grows_bind; [|intros; apply grows_alloc].
  apply reads_only_grows, reads_only_for_each, reads_only_read_point.
Qed.

Lemma grows_custom_collate (data : list sample) : grows (custom_collate data).
Proof.
  unfold custom_collate.
  do 3 (apply grows_bind;
        [apply grows_for_each; intros; apply grows_clone_detach | intros ?]).
  apply grows_bind;
    [apply reads_only_grows, reads_only_for_each, reads_only_shape0|intros ?].
  do 2 (apply grows_bind; [apply grows_pad_sequence|intros ?]).
  apply grows_bind; [apply grows_stack|intros ?].
  apply grows_bind; [apply grows_alloc|intros ?].
  apply grows_ret.
Qed.

Lemma grows_run {A} (c : eff store A) (h h' : store) (r : result A) :
  grows c → c h = (r, h') → h ⊆ h'.
Proof. intros Hc H. specialize (Hc h). rewrite H in Hc. exact Hc. Qed.

Lemma fresh_not_below (h h1 : store) : h ⊆ h1 → fresh (dom h1) ∉ dom h.
Proof.
  intros Hsub Hin. apply (is_fresh (dom h1)).
  apply (subseteq_dom h h1 Hsub). exact Hin.
Qed.

(** The four tensors of a returned batch sit in storages that did not
    exist when the call was made. *)
Lemma custom_collate_fresh (data : list sample) (h h' : store) (b : batch) :
  custom_collate data h = (Ok b, h') →
  Forall (λ l, l ∉ dom h) (batch_locs b).
Proof.
  unfold custom_collate. intros H.
  apply bind_inv_ok in H as (ls1 & h1 & H1 & H).
  apply bind_inv_ok in H as (ls2 & h2 & H2 & H).
  apply bind_inv_ok in H as (ls3 & h3 & H3 & H).
  apply bind_inv_ok in H as (lens & h4 & H4 & H).
  apply bind_inv_ok in H as (l5 & h5 & H5 & H).
  apply bind_inv_ok in H as (l6 & h6 & H6 & H).
  apply bind_inv_ok in H as (l7 & h7 & H7 & H).
  apply bind_inv_ok in H as (l8 & h8 & H8 & H).
  cbn in H. inversion H; subst b h'. clear H.
  assert (S1 : h ⊆ h1)
    by (eapply grows_run; [|exact H1];
        apply grows_for_each; intros; apply grows_clone_detach).
  assert (S2 : h1 ⊆ h2)
    by (eapply grows_run; [|exact H2];
        apply grows_for_each; intros; apply grows_clone_detach).
  assert (S3 : h2 ⊆ h3)
    by (eapply grows_run; [|exact H3];
        apply grows_for_each; intros; apply grows_clone_detach).
  assert (S4 : h3 ⊆ h4)
    by (eapply grows_run; [|exact H4];
        apply reads_only_grows, reads_only_for_each, reads_only_shape0).
  assert (S5 : h4 ⊆ h5) by (eapply grows_run; [apply grows_pad_sequence|exact H5]).
  assert (S6 : h5 ⊆ h6) by (eapply grows_run; [apply grows_pad_sequence|exact H6]).
  assert (S7 : h6 ⊆ h7) by (eapply grows_run; [apply grows_stack|exact H7]).
  apply pad_sequence_inv in H5 as (cs & _ & -> & _).
  apply pad_sequence_inv in H6 as (ns & _ & -> & _).
  apply stack_inv in H7 as (ps & _ & -> & _).
  unfold LongTensor in H8. cbn in H8. inversion H8; subst l8.
  assert (T4 : h ⊆ h4) by (do 3 (etrans; [eassumption|]); exact S4).
  assert (T5 : h ⊆ h5) by (etrans; eassumption).
  assert (T6 : h ⊆ h6) by (etrans; eassumption).
  assert (T7 : h ⊆ h7) by (etrans; eassumption).
  unfold batch_locs. cbn [pcl_clean pcl_noisy pcl_noisy_mean pcl_length].
  repeat constructor; apply fresh_not_below; assumption.
Qed.

(** C10: [custom_collate] reads its samples through clones.  Whatever
    the outcome, every storage that existed before the call is still
    there with the same contents; the tensors of a returned batch are
    in storages of their own, so writing to a batch tensor changes no
    tensor of a sample and writing to a tensor of a sample changes no
    batch tensor. *)
Theorem custom_collate_no_aliasing (data : list sample) (h : store) :
  h ⊆ (custom_collate data h).2
  ∧ ∀ b h', custom_collate data h = (Ok b, h') →
      Forall (λ l, l ∉ dom h) (batch_locs b)
      ∧ ∀ d l lb t, d ∈ data → l ∈ sample_locs d → l ∈ dom h →
          lb ∈ batch_locs b →
          l ≠ lb
          ∧ h' !! l = h !! l
          ∧ <[lb := t]> h' !! l = h !! l
          ∧ <[l := t]> h' !! lb = h' !! lb.
Proof.
  split; [apply grows_custom_collate|].
  intros b h' H.
  pose proof (custom_collate_fresh _ _ _ _ H) as Hfresh.
  split; [exact Hfresh|].
  intros d l lb t _ _ Hl Hlb.
  assert (Hne : l ≠ lb).
  { intros ->. rewrite Forall_forall in Hfresh. exact (Hfresh _ Hlb Hl). }
  assert (Hsame : h' !! l = h !! l).
  { apply elem_of_dom in Hl as [x Hx]. rewrite Hx.
    eapply lookup_weaken; [exact Hx|].
    eapply grows_run; [apply grows_custom_collate|exact H]. }
  repeat split.
  - exact Hne.
  - exact Hsame.
  - rewrite lookup_insert_ne by congruence. exact Hsame.
  - rewrite lookup_insert_ne by congruence. reflexivity.
Qed.

(** *** What the batch holds *)

Lemma lookups_weaken {X} (g : X → storage) (ls : list loc) (xs : list X)
    (h h' : store) :
  h ⊆ h' →
  Forall2 (λ l x, h !! l = Some (g x)) ls xs →
  Forall2 (λ l x, h' !! l = Some (g x)) ls xs.
Proof.
  intros Hsub H. eapply Forall2_impl; [exact H|].
  intros l x Hl. cbn in Hl. eapply lookup_weaken; eassumption.
Qed.

Lemma for_each_clone {X} (field : sample → loc) (g : X → storage)
    (data : list sample) (xs : list X) (h : store) :
  Forall2 (λ d x, h !! field d = Some (g x)) data xs →
  ∃ ls h', for_each (λ d, c <- clone (field d); detach c) data h = (Ok ls, h')
           ∧ h ⊆ h'
           ∧ Forall2 (λ l x, h' !! l = Some (g x)) ls xs.
Proof.
  intros H. revert xs h H.
  induction data as [|d data IH]; intros xs h H.
  - inversion H; subst. exists [], h. cbn. auto.
  - inversion H as [|? x ? xs' Hd Hrest]; subst.
    set (l := fresh (dom h)). set (h1 := <[l := g x]> h).
    assert (Hsub : h ⊆ h1)
      by (apply insert_subseteq, not_elem_of_dom, is_fresh).
    destruct (IH xs' h1) as (ls & h' & Hrun & Hsub' & Hls).
    { eapply Forall2_impl; [exact Hrest|].
      intros d' x' Hd'. cbn in Hd'. eapply lookup_weaken; eassumption. }
    exists (l :: ls), h'. split; [|split].
    + cbn [for_each].
      assert (Hc : bind (clone (field d)) detach h = (Ok l, h1)).
      { unfold clone, detach, bind, read, alloc, ret. rewrite Hd.
        reflexivity. }
      rewrite (bind_ok _ _ _ _ _ Hc), (bind_ok _ _ _ _ _ Hrun). reflexivity.
    + etrans; eassumption.
    + constructor; [|exact Hls].
      eapply lookup_weaken; [|exact Hsub']. apply lookup_insert_eq.
Qed.

Lemma for_each_shape0 {X} (g : X → cloud) (ls : list loc) (xs : list X)
    (h : store) :
  Forall2 (λ l x, h !! l = Some (FloatNx3 (g x))) ls xs →
  for_each shape0 ls h = (Ok (map (λ x, length (g x)) xs), h).
Proof.
  induction 1 as [|l x ls xs Hl _ IH]; [reflexivity|].
  cbn [for_each].
  assert (Hc : shape0 l h = (Ok (length (g x)), h))
    by (unfold shape0, bind, read; rewrite Hl; reflexivity).
  rewrite (bind_ok _ _ _ _ _ Hc), (bind_ok _ _ _ _ _ IH). reflexivity.
Qed.

Lemma for_each_read_cloud {X} (g : X → cloud) (ls : list loc) (xs : list X)
    (h : store) :
  Forall2 (λ l x, h !! l = Some (FloatNx3 (g x))) ls xs →
  for_each read_cloud ls h = (Ok (map g xs), h).
Proof.
  induction 1 as [|l x ls xs Hl _ IH]; [reflexivity|].
  cbn [for_each].
  assert (Hc : read_cloud l h = (Ok (g x), h))
    by (unfold read_cloud, bind, read; rewrite Hl; reflexivity).
  rewrite (bind_ok _ _ _ _ _ Hc), (bind_ok _ _ _ _ _ IH). reflexivity.
Qed.

Lemma for_each_read_point {X} (g : X → point) (ls : list loc) (xs : list X)
    (h : store) :
  Forall2 (λ l x, h !! l = Some (Float3 (g x))) ls xs →
  for_each read_point ls h = (Ok (map g xs), h).
Proof.
  induction 1 as [|l x ls xs Hl _ IH]; [reflexivity|].
  cbn [for_each].
  assert (Hc : read_point l h = (Ok (g x), h))
    by (unfold read_point, bind, read; rewrite Hl; reflexivity).
  rewrite (bind_ok _ _ _ _ _ Hc), (bind_ok _ _ _ _ _ IH). reflexivity.
Qed.

Lemma pad_sequence_ok {X} (g : X → cloud) (ls : list loc) (xs : list X)
    (h : store) :
  ls ≠ [] →
  Forall2 (λ l x, h !! l = Some (FloatNx3 (g x))) ls xs →
  pad_sequence ls h
  = (Ok (fresh (dom h)),
     <[fresh (dom h) := FloatBxLx3 (padded (map g xs))]> h).
Proof.
  intros Hne H. unfold pad_sequence. destruct ls as [|l0 ls]; [congruence|].
  unfold bind. rewrite (for_each_read_cloud _ _ _ _ H). reflexivity.
Qed.

Lemma stack_ok {X} (g : X → point) (ls : list loc) (xs : list X) (h : store) :
  ls ≠ [] →
  Forall2 (λ l x, h !! l = Some (Float3 (g x))) ls xs →
  stack ls h = (Ok (fresh (dom h)), <[fresh (dom h) := FloatBx3 (map g xs)]> h).
Proof.
  intros Hne H. unfold stack. destruct ls as [|l0 ls]; [congruence|].
  unfold bind. rewrite (for_each_read_point _ _ _ _ H). reflexivity.
Qed.

Lemma insert_fresh_subseteq (t : storage) (h : store) :
  h ⊆ <[fresh (dom h) := t]> h.
Proof. apply insert_subseteq, not_elem_of_dom, is_fresh. Qed.

(** The run of [custom_collate] on samples that are in the store. *)
Lemma custom_collate_run (data : list sample)
    (xs : list (cloud * cloud * point)) (h : store) :
  data ≠ [] →
  Forall2 (holds h) data xs →
  ∃ b h', custom_collate data h = (Ok b, h')
    ∧ h' !! pcl_clean b = Some (FloatBxLx3 (padded (map (λ x, x.1.1) xs)))
    ∧ h' !! pcl_noisy b = Some (FloatBxLx3 (padded (map (λ x, x.1.2) xs)))
    ∧ h' !! pcl_noisy_mean b = Some (FloatBx3 (map snd xs))
    ∧ h' !! pcl_length b
      = Some (LongB (map Z.of_nat (map (λ x, length x.1.1) xs))).
Proof.
  intros Hne H.
  assert (Hc : Forall2 (λ d x, h !! d_pcl_clean d = Some (FloatNx3 x.1.1)) data xs)
    by (eapply Forall2_impl; [exact H|]; intros d x (? & ? & ?); assumption).
  assert (Hn : Forall2 (λ d x, h !! d_pcl_noisy d = Some (FloatNx3 x.1.2)) data xs)
    by (eapply Forall2_impl; [exact H|]; intros d x (? & ? & ?); assumption).
  assert (Hm : Forall2 (λ d x, h !! d_pcl_noisy_mean d = Some (Float3 x.2)) data xs)
    by (eapply Forall2_impl; [exact H|]; intros d x (? & ? & ?); assumption).
  destruct (for_each_clone d_pcl_clean (λ x, FloatNx3 x.1.1) data xs h Hc)
    as (ls1 & h1 & R1 & S1 & L1).
  destruct (for_each_clone d_pcl_noisy (λ x, FloatNx3 x.1.2) data xs h1)
    as (ls2 & h2 & R2 & S2 & L2).
  { eapply Forall2_impl; [exact Hn|]. intros d x Hd. cbn in Hd.
    eapply lookup_weaken; eassumption. }
  destruct (for_each_clone d_pcl_noisy_mean (λ x, Float3 x.2) data xs h2)
    as (ls3 & h3 & R3 & S3 & L3).
  { eapply Forall2_impl; [exact Hm|]. intros d x Hd. cbn in Hd.
    eapply lookup_weaken; [exact Hd|]. etrans; eassumption. }
  assert (L1' : Forall2 (λ l x, h3 !! l = Some (FloatNx3 x.1.1)) ls1 xs)
    by (eapply (lookups_weaken (λ x, FloatNx3 x.1.1)); [|exact L1];
        etrans; eassumption).
  assert (L2' : Forall2 (λ l x, h3 !! l = Some (FloatNx3 x.1.2)) ls2 xs)
    by (eapply (lookups_weaken (λ x, FloatNx3 x.1.2)); [|exact L2];
        exact S3).
  assert (N1 : ls1 ≠ []).
  { intros ->. apply Forall2_length in L1, H. destruct data; [congruence|].
    cbn in *. congruence. }
  assert (N2 : ls2 ≠ []).
  { intros ->. apply Forall2_length in L2, H. destruct data; [congruence|].
    cbn in *. congruence. }
  assert (N3 : ls3 ≠ []).
  { intros ->. apply Forall2_length in L3, H. destruct data; [congruence|].
    cbn in *. congruence. }
  set (PC := FloatBxLx3 (padded (map (λ x, x.1.1) xs))).
  set (PN := FloatBxLx3 (padded (map (λ x, x.1.2) xs))).
  set (MS := FloatBx3 (map snd xs)).
  set (LS := LongB (map Z.of_nat (map (λ x, length x.1.1) xs))).
  set (l4 := fresh (dom h3)). set (h4 := <[l4 := PC]> h3).
  set (l5 := fresh (dom h4)). set (h5 := <[l5 := PN]> h4).
  set (l6 := fresh (dom h5)). set (h6 := <[l6 := MS]> h5).
  set (l7 := fresh (dom h6)). set (h7 := <[l7 := LS]> h6).
  assert (S4 : h3 ⊆ h4) by apply insert_fresh_subseteq.
  assert (S5 : h4 ⊆ h5) by apply insert_fresh_subseteq.
  assert (S6 : h5 ⊆ h6) by apply insert_fresh_subseteq.
  assert (S7 : h6 ⊆ h7) by apply insert_fresh_subseteq.
  exists {| pcl_clean := l4; pcl_noisy := l5;
            pcl_noisy_mean := l6; pcl_length := l7 |}, h7.
  split; [|repeat split].
  - unfold custom_collate.
    rewrite (bind_ok _ _ _ _ _ R1), (bind_ok _ _ _ _ _ R2),
      (bind_ok _ _ _ _ _ R3).
    rewrite (bind_ok _ _ _ _ _ (for_each_shape0 (λ x, x.1.1) _ _ _ L1')).
    rewrite (bind_ok _ _ _ _ _ (pad_sequence_ok (λ x, x.1.1) _ _ _ N1 L1')).
    fold PC l4 h4.
    assert (L2'' : Forall2 (λ l x, h4 !! l = Some (FloatNx3 x.1.2)) ls2 xs)
      by (eapply (lookups_weaken (λ x, FloatNx3 x.1.2)); eassumption).
    rewrite (bind_ok _ _ _ _ _ (pad_sequence_ok (λ x, x.1.2) _ _ _ N2 L2'')).
    fold PN l5 h5.
    assert (L3' : Forall2 (λ l x, h5 !! l = Some (Float3 x.2)) ls3 xs)
      by (eapply (lookups_weaken (λ x, Float3 x.2)); [|exact L3];
          etrans; eassumption).
    rewrite (bind_ok _ _ _ _ _ (stack_ok snd _ _ _ N3 L3')).
    reflexivity.
  - cbn [pcl_clean]. eapply lookup_weaken; [apply lookup_insert_eq|].
    etrans; [exact S5|]. etrans; eassumption.
  - cbn [pcl_noisy]. eapply lookup_weaken; [apply lookup_insert_eq|].
    etrans; eassumption.
  - cbn [pcl_noisy_mean]. eapply lookup_weaken; [apply lookup_insert_eq|].
    exact S7.
  - cbn [pcl_length]. apply lookup_insert_eq.
Qed.

(** The pure part: what padding does to a list of clouds. *)

Lemma length_le_max_len (cs : list cloud) (c : cloud) :
  c ∈ cs → length c ≤ max_len cs.
Proof.
  induction 1 as [c cs|c c' cs _ IH].
  - change (max_len (c :: cs)) with (Nat.max (length c) (max_len cs)). lia.
  - change (max_len (c' :: cs)) with (Nat.max (length c') (max_len cs)). lia.
Qed.

Lemma lookup_map {A B} (f : A → B) (l : list A) (i : nat) :
  map f l !! i = option_map f (l !! i).
Proof.
  revert i. induction l as [|x l IH]; intros [|i]; cbn; try reflexivity.
  apply IH.
Qed.

Lemma padded_lookup (cs : list cloud) (i : nat) (c : cloud) :
  cs !! i = Some c →
  padded cs !! i = Some (c ++ replicate (max_len cs - length c) zero_point).
Proof.
  intros H. unfold padded. rewrite lookup_map, H. reflexivity.
Qed.

Lemma padded_rectangular (cs : list cloud) :
  Forall (λ row, length row = max_len cs) (padded cs).
Proof.
  apply Forall_lookup. intros i row Hrow.
  unfold padded in Hrow. rewrite lookup_map in Hrow.
  destruct (cs !! i) as [c|] eqn:E; [|discriminate].
  cbn in Hrow. inversion Hrow; subst row.
  rewrite length_app, length_replicate.
  assert (Hin : c ∈ cs) by (eapply list_elem_of_lookup; eauto).
  pose proof (length_le_max_len cs c Hin) as Hle. lia.
Qed.

Lemma max_len_same_lengths {X} (f g : X → cloud) (xs : list X) :
  Forall (λ x, length (f x) = length (g x)) xs →
  max_len (map f xs) = max_len (map g xs).
Proof.
  induction 1 as [|x xs Hl _ IH]; [reflexivity|].
  change (Nat.max (length (f x)) (max_len (map f xs))
          = Nat.max (length (g x)) (max_len (map g xs))).
  lia.
Qed.

Lemma padded_length (cs : list cloud) : length (padded cs) = length cs.
Proof. unfold padded. apply length_map. Qed.

(** C5: for a non-empty list of patch samples held in the store, each
    with as many noisy points as clean points, [custom_collate] returns
    a batch of four tensors: the clean and the noisy clouds, padded to
    one capacity, the maximum point count of the list, the stacked
    centroids and the lengths.  Entry [i] of the lengths is the point
    count of sample [i], it is at most the capacity, and the first
    that many rows of slice [i] of the padded clean and noisy tensors
    are the clouds of sample [i]. *)
Theorem custom_collate_batch (data : list sample)
    (xs : list (cloud * cloud * point)) (h : store) :
  data ≠ [] →
  Forall2 (holds h) data xs →
  Forall (λ x, length x.1.1 = length x.1.2) xs →
  ∃ b h' PC PN means lens,
    custom_collate data h = (Ok b, h')
    ∧ h' !! pcl_clean b = Some (FloatBxLx3 PC)
    ∧ h' !! pcl_noisy b = Some (FloatBxLx3 PN)
    ∧ h' !! pcl_noisy_mean b = Some (FloatBx3 means)
    ∧ h' !! pcl_length b = Some (LongB lens)
    ∧ length PC = length data ∧ length PN = length data
    ∧ length means = length data ∧ length lens = length data
    ∧ Forall (λ row, length row = max_len (map (λ x, x.1.1) xs)) PC
    ∧ Forall (λ row, length row = max_len (map (λ x, x.1.1) xs)) PN
    ∧ ∀ i x, xs !! i = Some x →
        lens !! i = Some (Z.of_nat (length x.1.1))
        ∧ length x.1.1 ≤ max_len (map (λ x, x.1.1) xs)
        ∧ means !! i = Some x.2
        ∧ (∃ row, PC !! i = Some row ∧ take (length x.1.1) row = x.1.1)
        ∧ (∃ row, PN !! i = Some row ∧ take (length x.1.1) row = x.1.2).
Proof.
  intros Hne H Hlen.
  destruct (custom_collate_run data xs h Hne H)
    as (b & h' & Hrun & Hc & Hn & Hm & Hl).
  pose proof (Forall2_length _ _ _ H) as Hdx.
  exists b, h', (padded (map (λ x, x.1.1) xs)), (padded (map (λ x, x.1.2) xs)),
    (map snd xs), (map Z.of_nat (map (λ x, length x.1.1) xs)).
  repeat match goal with |- _ ∧ _ => split end;
    try assumption.
  - rewrite padded_length, length_map. congruence.
  - rewrite padded_length, length_map. congruence.
  - rewrite length_map. congruence.
  - rewrite !length_map. congruence.
  - apply padded_rectangular.
  - rewrite (max_len_same_lengths (λ x, x.1.1) (λ x, x.1.2) xs Hlen).
    apply padded_rectangular.
  - intros i x Hx.
    assert (Hx1 : map (λ x, x.1.1) xs !! i = Some x.1.1)
      by (rewrite lookup_map, Hx; reflexivity).
    assert (Hx2 : map (λ x, x.1.2) xs !! i = Some x.1.2)
      by (rewrite lookup_map, Hx; reflexivity).
    repeat match goal with |- _ ∧ _ => split end.
    + rewrite !lookup_map, Hx. reflexivity.
    + apply length_le_max_len. eapply list_elem_of_lookup. eauto.
    + rewrite lookup_map, Hx. reflexivity.
    + eexists. split; [apply padded_lookup; exact Hx1|].
      apply take_app_length.
    + eexists. split; [apply padded_lookup; exact Hx2|].
      rewrite Forall_lookup in Hlen. rewrite (Hlen _ _ Hx).
      apply take_app_length.
Qed.

End CollateFacts.

Lemma custom_collate_batch_witness :
  Demo.demo_data ≠ []
  ∧ Forall2 (Collate.holds Demo.demo_store) Demo.demo_data Demo.demo_contents
  ∧ Forall (λ x, length x.1.1 = length x.1.2) Demo.demo_contents
  ∧ ∃ b h', Collate.custom_collate Demo.demo_data Demo.demo_store = (Ok b, h')
            ∧ ∃ lens, h' !! Collate.pcl_length b = Some (Collate.LongB lens)
                      ∧ lens !! 1 = Some 1%Z.
Proof.
  assert (H1 : Demo.demo_data ≠ []) by discriminate.
  assert (H2 : Forall2 (Collate.holds Demo.demo_store) Demo.demo_data
                 Demo.demo_contents).
  { repeat constructor. }
  assert (H3 : Forall (λ x, length x.1.1 = length x.1.2) Demo.demo_contents).
  { repeat constructor. }
  split; [exact H1|]. split; [exact H2|]. split; [exact H3|].
  destruct (custom_collate_batch Demo.demo_data Demo.demo_contents
              Demo.demo_store H1 H2 H3)
    as (b & h' & PC & PN & means & lens & Hrun & _ & _ & _ & Hl & _ & _ & _
        & _ & _ & _ & Hi).
  exists b, h'. split; [exact Hrun|]. exists lens. split; [exact Hl|].
  exact (proj1 (Hi 1 ([Demo.p0], [Tensor.zero_point], Tensor.zero_point)
                  eq_refl)).
Defined.

Lemma custom_collate_no_aliasing_witness :
  let run := Collate.custom_collate Demo.demo_data Demo.demo_store in
  let b := {| Collate.pcl_clean := 13; Collate.pcl_noisy := 14;
              Collate.pcl_noisy_mean := 15;
              Collate.pcl_length := 16 |}%positive in
  run = (Ok b, run.2)
  ∧ Forall (λ l, l ∉ dom Demo.demo_store) (Collate.batch_locs b)
  ∧ Demo.demo_store ⊆ run.2.
Proof.
  intros run b.
  assert (H : run = (Ok b, run.2)) by reflexivity.
  split; [exact H|].
  pose proof (custom_collate_no_aliasing Demo.demo_data Demo.demo_store)
    as [Hsub Hb].
  split; [|exact Hsub].
  exact (proj1 (Hb b run.2 H)).
Defined.

(** * Further properties of the script *)

(** ** The training epoch *)

Section TrainFacts.
Import Tensor Script.

Context {S : Type}.
Variable train_step : S → batch → result (fscalar * fscalar) * S.
Variable lr : S → fscalar.
Variable log_interval : Z.
Variable train_loader : list batch.

Local Abbreviation train_loop := (Script.train_loop train_step lr log_interval).
Local Abbreviation train_for_one_epoch :=
  (Script.train_for_one_epoch train_step lr log_interval train_loader).
Local Abbreviation train_report := (Script.train_report lr log_interval).
Local Abbreviation over_interval := (Script.over_interval log_interval).
Local Abbreviation run_steps := (Script.run_steps train_step).

(** One iteration of the loop of [train_for_one_epoch], case by case. *)
Lemma train_loop_cons (epoch_num len i : nat) (data : batch)
    (rest : list batch) (rl rg : fscalar) (w : world S) :
  train_loop epoch_num len i (data :: rest) rl rg w
  = match train_step (state w) data with
    | (Raise e, s') => (Raise e, with_state s' w)
    | (Ok (loss, grad), s') =>
        if decide (log_interval = 0%Z)
        then (Raise ZeroDivisionError, with_state s' w)
        else if decide ((Z.of_nat i `mod` log_interval)%Z = 0%Z)
        then train_loop epoch_num len (Datatypes.S i) rest (Val 0) (Val 0)
               (train_report epoch_num len i (fadd rl loss) (fadd rg grad)
                  (with_state s' w))
        else train_loop epoch_num len (Datatypes.S i) rest
               (fadd rl loss) (fadd rg grad) (with_state s' w)
    end.
Proof.
  cbn [Script.train_loop]. unfold bind at 1, on_state.
  destruct (train_step (state w) data) as [[[loss grad]|e] s'];
    [|reflexivity].
  fold (with_state s' w).
  unfold bind at 1, lift, py_mod.
  destruct (decide (log_interval = 0%Z)) as [E|E]; [reflexivity|].
  destruct (decide ((Z.of_nat i `mod` log_interval)%Z = 0%Z)) as [Em|Em];
    [|reflexivity].
  unfold bind, fdiv_int, logger_info, writer_call, get_state.
  destruct (decide (log_interval = 0%Z)); [contradiction|].
  cbn. unfold Script.train_report. cbn.
  rewrite <- !app_assoc. reflexivity.
Qed.

Lemma train_loop_run_steps (epoch_num len : nat) (rest : list batch) :
  log_interval ≠ 0%Z →
  ∀ (i : nat) (rl rg : fscalar) (w : world S),
    (train_loop epoch_num len i rest rl rg w).1
    = (run_steps (state w) rest).1
    ∧ state (train_loop epoch_num len i rest rl rg w).2
      = (run_steps (state w) rest).2.
Proof.
  intros Hk. induction rest as [|data rest IH]; intros i rl rg w.
  - split; reflexivity.
  - rewrite train_loop_cons. cbn [Script.run_steps].
    destruct (train_step (state w) data) as [[[loss grad]|e] s'];
      [|split; reflexivity].
    destruct (decide (log_interval = 0%Z)); [contradiction|].
    destruct (decide _); apply IH.
Qed.

(** What the loop adds to the logger and the writer from iteration [i]
    on: one block of four writer calls per log line, with steps inside
    the range of the epoch. *)
Lemma train_loop_reports (epoch_num len : nat) (rest : list batch) :
  ∀ (i : nat) (rl rg : fscalar) (w : world S),
    ∃ lines evs,
      logger (train_loop epoch_num len i rest rl rg w).2 = logger w ++ lines
      ∧ writer (train_loop epoch_num len i rest rl rg w).2 = writer w ++ evs
      ∧ length evs = 4 * length lines
      ∧ Forall (λ ev, ∀ st, event_step ev = Some st →
                  epoch_num * len + i ≤ st
                  ∧ st < epoch_num * len + i + length rest) evs.
Proof.
  induction rest as [|data rest IH]; intros i rl rg w.
  - exists [], []. cbn. rewrite !app_nil_r. auto.
  - rewrite train_loop_cons.
    destruct (train_step (state w) data) as [[[loss grad]|e] s'].
    2:{ exists [], []. cbn. rewrite !app_nil_r. auto. }
    destruct (decide (log_interval = 0%Z)).
    { exists [], []. cbn. rewrite !app_nil_r. auto. }
    destruct (decide _).
    + destruct (IH (Datatypes.S i) (Val 0) (Val 0)
                  (train_report epoch_num len i (fadd rl loss) (fadd rg grad)
                     (with_state s' w)))
        as (lines & evs & Hl & Hw & Hn & Hr).
      eexists (_ :: lines), (_ :: _ :: _ :: _ :: evs).
      rewrite Hl, Hw. cbn [Script.train_report with_state logger writer].
      rewrite <- !app_assoc. split; [reflexivity|]. split; [reflexivity|].
      split; [cbn [length]; lia|].
      do 4 (constructor;
            [intros st Hst; cbn in Hst; inversion Hst; subst; cbn [length];
             lia|]).
      eapply Forall_impl; [exact Hr|].
      intros ev Hev st Hst. specialize (Hev st Hst). cbn [length]. lia.
    + destruct (IH (Datatypes.S i) (fadd rl loss) (fadd rg grad)
                  (with_state s' w)) as (lines & evs & Hl & Hw & Hn & Hr).
      exists lines, evs. split; [exact Hl|]. split; [exact Hw|].
      split; [exact Hn|].
      eapply Forall_impl; [exact Hr|].
      intros ev Hev st Hst. specialize (Hev st Hst). cbn [length]. lia.
Qed.

(** X1: With [log_interval = 0] an epoch over a non-empty loader ends in
    [ZeroDivisionError] at line 138, after the first optimisation step
    and before anything is logged. *)
Theorem train_epoch_zero_log_interval (epoch_num : nat) (data : batch)
    (rest : list batch) (loss grad : fscalar) (s' : S) (w : world S) :
  log_interval = 0%Z →
  train_loader = data :: rest →
  train_step (state w) data = (Ok (loss, grad), s') →
  train_for_one_epoch epoch_num w = (Raise ZeroDivisionError, with_state s' w).
Proof.
  intros Hk Hl Hs. unfold Script.train_for_one_epoch. rewrite Hl.
  rewrite train_loop_cons, Hs.
  destruct (decide (log_interval = 0%Z)); [reflexivity|contradiction].
Qed.


(** X3: An epoch only appends to the logger and to the writer, four writer
    calls for each log line, and every step it writes lies in
    [epoch_num * len, (epoch_num + 1) * len) for [len] the number of
    batches, so the steps of different epochs never collide; it writes
    no checkpoint. *)
Theorem train_epoch_reports (epoch_num : nat) (w : world S) :
  ∃ lines evs,
    logger (train_for_one_epoch epoch_num w).2 = logger w ++ lines
    ∧ writer (train_for_one_epoch epoch_num w).2 = writer w ++ evs
    ∧ length evs = 4 * length lines
    ∧ Forall (λ ev, ∀ st, event_step ev = Some st →
                epoch_num * length train_loader ≤ st
                ∧ st < (epoch_num + 1) * length train_loader) evs
    ∧ checkpoints (train_for_one_epoch epoch_num w).2 = checkpoints w.
Proof.
  unfold Script.train_for_one_epoch.
  destruct (train_loop_reports epoch_num (length train_loader) train_loader
              0 (Val 0) (Val 0) w) as (lines & evs & Hl & Hw & Hn & Hr).
  exists lines, evs. repeat split; try assumption.
  - eapply Forall_impl; [exact Hr|].
    intros ev Hev st Hst. specialize (Hev st Hst). lia.
  - apply (keeps_train_loop train_step lr log_interval).
Qed.

(** X4: The first report of an epoch is made at iteration 0 and divides
    the single loss and gradient norm of that iteration by
    [log_interval]. *)
Theorem train_epoch_first_report (epoch_num : nat) (data : batch)
    (rest : list batch) (a g : R) (s' : S) (w : world S) :
  log_interval ≠ 0%Z →
  train_loader = data :: rest →
  train_step (state w) data = (Ok (Val a, Val g), s') →
  ∃ lines,
    logger (train_for_one_epoch epoch_num w).2
    = logger w ++ LogTrain 0 (Val (a / IZR log_interval))
                             (Val (g / IZR log_interval)) :: lines.
Proof.
  intros Hk Hl Hs. unfold Script.train_for_one_epoch. rewrite Hl.
  rewrite train_loop_cons, Hs.
  destruct (decide (log_interval = 0%Z)); [contradiction|].
  destruct (decide _) as [_|Hm]; [|exfalso; apply Hm; apply Zmod_0_l].
  destruct (train_loop_reports epoch_num (length (data :: rest)) rest 1
              (Val 0) (Val 0)
              (train_report epoch_num (length (data :: rest)) 0
                 (fadd (Val 0) (Val a)) (fadd (Val 0) (Val g))
                 (with_state s' w))) as (lines & evs & Hlog & _).
  exists lines. rewrite Hlog.
  cbn [Script.train_report with_state logger fadd Script.over_interval].
  rewrite <- app_assoc. cbn [app].
  replace ((0 + a) / IZR log_interval)%R with (a / IZR log_interval)%R
    by (unfold Rdiv; ring).
  replace ((0 + g) / IZR log_interval)%R with (g / IZR log_interval)%R
    by (unfold Rdiv; ring).
  reflexivity.
Qed.

End TrainFacts.

(** ** The point-correspondence distance as a distance *)

Section DistanceFacts.
Import Tensor.

Lemma vector_norm_nonneg (p : point) : (0 <= vector_norm p)%R.
Proof. destruct p as [[a b] c]. apply sqrt_pos. Qed.

Lemma Rsum_nonneg (l : list R) :
  Forall (λ x, (0 <= x)%R) l → (0 <= Rsum l)%R.
Proof.
  induction 1 as [|x l Hx _ IH]; [cbn; lra|].
  change (0 <= x + Rsum l)%R. lra.
Qed.

Lemma norms_nonneg (l : list point) :
  Forall (λ x, (0 <= x)%R) (map vector_norm l).
Proof.
  induction l as [|p l IH]; constructor; [apply vector_norm_nonneg|exact IH].
Qed.

Lemma mean_nonneg (l : list R) (d : R) :
  Forall (λ x, (0 <= x)%R) l → mean l = Val d → (0 <= d)%R.
Proof.
  intros Hl H. destruct l as [|x l]; [discriminate|].
  change (Val (Rsum (x :: l) / INR (length (x :: l))) = Val d) in H.
  assert (Hd : (Rsum (x :: l) / INR (length (x :: l)))%R = d) by congruence.
  rewrite <- Hd. unfold Rdiv.
  apply Rmult_le_pos; [exact (Rsum_nonneg (x :: l) Hl)|].
  left. apply Rinv_0_lt_compat. apply lt_0_INR. cbn [length]. lia.
Qed.

Lemma zip_with_psub_norm_sym (a b : cloud) :
  map vector_norm (zip_with psub a b) = map vector_norm (zip_with psub b a).
Proof.
  revert b. induction a as [|p a IH]; intros [|q b]; cbn; try reflexivity.
  rewrite IH, vector_norm_psub_sym. reflexivity.
Qed.

(** X9: The distance of line 179 does not depend on the order of its two
    clouds: both orders give the same value, or both raise the same
    error. *)
Theorem point_corr_distance_sym (a b : cloud) :
  point_corr_distance (T2 a) (T2 b) = point_corr_distance (T2 b) (T2 a).
Proof.
  unfold point_corr_distance, tsub.
  destruct (decide (length a = length b)) as [E|E].
  - rewrite (cloud_sub_same_length _ _ E).
    rewrite (cloud_sub_same_length b a) by congruence.
    cbn [rbind norms]. rewrite zip_with_psub_norm_sym. reflexivity.
  - destruct (decide (length a = 1)) as [Ea|Ea].
    + destruct a as [|p [|p' a]]; try discriminate.
      rewrite cloud_sub_left_single by (cbn in E; congruence).
      rewrite cloud_sub_right_single by (cbn in E; congruence).
      cbn [rbind norms]. rewrite !map_map. do 2 f_equal.
      apply map_ext. intros q. apply vector_norm_psub_sym.
    + destruct (decide (length b = 1)) as [Eb|Eb].
      * destruct b as [|q [|q' b]]; try discriminate.
        rewrite cloud_sub_right_single by exact Ea.
        rewrite cloud_sub_left_single by exact Ea.
        cbn [rbind norms]. rewrite !map_map. do 2 f_equal.
        apply map_ext. intros p. apply vector_norm_psub_sym.
      * rewrite (cloud_sub_mismatch _ _ E Ea Eb).
        rewrite (cloud_sub_mismatch b a) by congruence. reflexivity.
Qed.

Lemma tensor_norms_nonneg (t : ftensor) :
  Forall (λ x, (0 <= x)%R) (norms t).
Proof.
  destruct t as [rows|slices]; [apply norms_nonneg|].
  cbn [norms]. apply Forall_concat, Forall_forall.
  intros l Hl. apply list_elem_of_fmap in Hl as (c & -> & _).
  apply norms_nonneg.
Qed.

(** X10: A distance that line 179 returns as a number is never
    negative, for tensors of two or of three dimensions and in the
    broadcast cases as well. *)
Theorem point_corr_distance_nonneg (x y : ftensor) (d : R) :
  point_corr_distance x y = Ok (Val d) → (0 <= d)%R.
Proof.
  unfold point_corr_distance.
  destruct (tsub x y) as [t|e]; [|discriminate].
  cbn [rbind]. intros H.
  assert (Hm : mean (norms t) = Val d) by congruence.
  eapply mean_nonneg; [|exact Hm]. apply tensor_norms_nonneg.
Qed.

End DistanceFacts.

(** ** More on the validation pass *)

Section ValidateMore.
Import Tensor Script.

Context {S : Type}.
Variable mbes_denoise : S → ftensor → result ftensor.
Variable chamfer_distance : ftensor → ftensor → result fscalar.

Local Abbreviation validate_body := (Script.validate_body mbes_denoise chamfer_distance).
Local Abbreviation validate_loop := (Script.validate_loop mbes_denoise chamfer_distance).
Local Abbreviation validate := (Script.validate mbes_denoise chamfer_distance).
Local Abbreviation measured := (Script.measured mbes_denoise chamfer_distance).
Local Abbreviation fails := (Script.fails mbes_denoise chamfer_distance).

Lemma validate_unfold (vl : list batch) (it : nat) (w : world S) :
  validate vl it w
  = match validate_loop (state w) vl no_lists with
    | Ok acc =>
        (Ok (mean_items (all_chamfer acc),
             mean_items (all_point_corr_distance acc)),
         val_report it (mean_items (all_chamfer acc))
           (mean_items (all_point_corr_distance acc)) w)
    | Raise e => (Raise e, w)
    end.
Proof.
  unfold Script.validate, bind, get_state, lift, logger_info, writer_call, ret.
  destruct (validate_loop (state w) vl no_lists) as [acc|e]; [|reflexivity].
  cbn. unfold val_report. rewrite <- !app_assoc. reflexivity.
Qed.

Lemma validate_run (vl : list batch) (it : nat) (w : world S)
    (ms : list (ftensor * fscalar * fscalar)) :
  Forall2 (measured (state w)) vl ms →
  validate vl it w
  = (Ok (mean_items (map (λ m, m.1.2) ms), mean_items (map snd ms)),
     val_report it (mean_items (map (λ m, m.1.2) ms))
       (mean_items (map snd ms)) w).
Proof.
  intros H. rewrite validate_unfold.
  rewrite (validate_loop_ok mbes_denoise chamfer_distance _ _ _ _ H).
  reflexivity.
Qed.

Lemma validate_loop_app (s : S) (pre post : list batch) (acc : val_lists) :
  validate_loop s (pre ++ post) acc
  = rbind (validate_loop s pre acc) (validate_loop s post).
Proof.
  revert acc. induction pre as [|data pre IH]; intros acc; [reflexivity|].
  cbn [app Script.validate_loop].
  destruct (validate_body s acc data) as [acc1|e]; cbn [rbind];
    [apply IH|reflexivity].
Qed.

Lemma validate_body_fails (s : S) (acc : val_lists) (data : batch) (e : exn) :
  fails s data e → validate_body s acc data = Raise e.
Proof.
  unfold Script.validate_body.
  intros [H|(den & Hd & [H|(c & Hc & H)])].
  - rewrite H. reflexivity.
  - rewrite Hd. cbn [rbind]. rewrite H. reflexivity.
  - rewrite Hd. cbn [rbind]. rewrite Hc. cbn [rbind]. rewrite H. reflexivity.
Qed.

(** X5: A validation pass reports all or nothing: when it raises, the
    world is as before the call (no log line, no writer event); when it
    returns, the model state and the checkpoints are as before, the
    logger has one more line and the writer three more events, which
    carry the returned values. *)
Theorem validate_all_or_nothing (vl : list batch) (it : nat) (w : world S) :
  match (validate vl it w).1 with
  | Raise _ => (validate vl it w).2 = w
  | Ok (avg_chamfer, avg_diff) =>
      (validate vl it w).2 = val_report it avg_chamfer avg_diff w
  end.
Proof.
  rewrite validate_unfold.
  destruct (validate_loop (state w) vl no_lists); reflexivity.
Qed.

(** X6: The pass stops at the first batch on which the denoiser or a
    metric raises: that exception comes out of [validate], the Chamfer
    error before the distance error of the same batch, and the batches
    after it do not matter. *)
Theorem validate_first_failure (pre post : list batch) (data : batch)
    (ms : list (ftensor * fscalar * fscalar)) (e : exn) (it : nat)
    (w : world S) :
  Forall2 (measured (state w)) pre ms →
  fails (state w) data e →
  validate (pre ++ data :: post) it w = (Raise e, w).
Proof.
  intros Hpre Hf. rewrite validate_unfold, validate_loop_app.
  rewrite (validate_loop_ok mbes_denoise chamfer_distance _ _ _ _ Hpre).
  cbn [rbind Script.validate_loop].
  rewrite (validate_body_fails _ _ _ _ Hf). reflexivity.
Qed.

Lemma finite_items_None (l : list fscalar) :
  finite_items l = None ↔ NaN ∈ l.
Proof.
  induction l as [|[r|] l IH]; cbn.
  - split; [discriminate|]. intros H. inversion H.
  - destruct (finite_items l) as [rs|]; cbn.
    + split; [discriminate|]. intros H. inversion H; subst.
      apply IH in H2. discriminate.
    + split; [|reflexivity]. intros _. right. apply IH. reflexivity.
  - split; [|reflexivity]. intros _. left.
Qed.

Lemma finite_items_length (l : list fscalar) (rs : list R) :
  finite_items l = Some rs → length rs = length l.
Proof.
  revert rs. induction l as [|[r|] l IH]; intros rs H; cbn in H.
  - inversion H. reflexivity.
  - destruct (finite_items l) as [rs'|]; [|discriminate].
    cbn in H. inversion H. cbn. f_equal. apply IH. reflexivity.
  - discriminate.
Qed.

Lemma mean_items_NaN (l : list fscalar) :
  mean_items l = NaN ↔ l = [] ∨ NaN ∈ l.
Proof.
  unfold mean_items. destruct (finite_items l) as [rs|] eqn:E.
  - pose proof (finite_items_length _ _ E) as Hlen.
    destruct rs as [|r rs].
    + destruct l; [|discriminate]. cbn. split; auto.
    + cbn [mean]. split; [discriminate|].
      intros [->|Hin]; [discriminate|].
      apply finite_items_None in Hin. congruence.
  - split; [|reflexivity]. intros _. right. apply finite_items_None, E.
Qed.

(** X7: When every batch yields its metrics, a reported mean is [nan] in
    two cases only: the loader is empty, or one of the per-batch values
    is [nan]. *)
Theorem validate_nan (vl : list batch) (it : nat) (w : world S)
    (ms : list (ftensor * fscalar * fscalar)) :
  Forall2 (measured (state w)) vl ms →
  ∃ avg_chamfer avg_diff,
    (validate vl it w).1 = Ok (avg_chamfer, avg_diff)
    ∧ (avg_chamfer = NaN ↔ vl = [] ∨ NaN ∈ map (λ m, m.1.2) ms)
    ∧ (avg_diff = NaN ↔ vl = [] ∨ NaN ∈ map snd ms).
Proof.
  intros H. rewrite (validate_run _ _ _ _ H). cbn [fst].
  pose proof (Forall2_length _ _ _ H) as Hlen.
  assert (Hnil : ∀ {B} (f : _ → B), map f ms = [] ↔ vl = []).
  { intros B f. destruct ms, vl; cbn in *; split; congruence. }
  eexists _, _. split; [reflexivity|].
  split; rewrite mean_items_NaN, Hnil; reflexivity.
Qed.

End ValidateMore.

(** ** More on the collation function *)

Section CollateMore.
Import Tensor Collate.


(** X14: The rows that padding adds are zero rows: slice [i] of the padded
    clean tensor is the clean cloud of sample [i] followed by zeros up
    to the longest clean cloud, slice [i] of the padded noisy tensor is
    the noisy cloud followed by zeros up to the longest noisy cloud,
    and [pcl_length] holds the clean counts in both cases. *)
Theorem custom_collate_padding_is_zero (data : list sample)
    (xs : list (cloud * cloud * point)) (h : store) :
  data ≠ [] →
  Forall2 (holds h) data xs →
  ∃ b h' PC PN lens,
    custom_collate data h = (Ok b, h')
    ∧ h' !! pcl_clean b = Some (FloatBxLx3 PC)
    ∧ h' !! pcl_noisy b = Some (FloatBxLx3 PN)
    ∧ h' !! pcl_length b = Some (LongB lens)
    ∧ ∀ i x, xs !! i = Some x →
        lens !! i = Some (Z.of_nat (length x.1.1))
        ∧ PC !! i
          = Some (x.1.1 ++ replicate (max_len (map (λ x, x.1.1) xs)
                                      - length x.1.1) zero_point)
        ∧ PN !! i
          = Some (x.1.2 ++ replicate (max_len (map (λ x, x.1.2) xs)
                                      - length x.1.2) zero_point).
Proof.
  intros Hne H.
  destruct (custom_collate_run data xs h Hne H)
    as (b & h' & Hrun & Hc & Hn & _ & Hl).
  exists b, h', (padded (map (λ x, x.1.1) xs)), (padded (map (λ x, x.1.2) xs)),
    (map Z.of_nat (map (λ x, length x.1.1) xs)).
  repeat match goal with |- _ ∧ _ => split end; try assumption.
  intros i x Hx. repeat split.
  - rewrite !lookup_map, Hx. reflexivity.
  - apply padded_lookup. rewrite lookup_map, Hx. reflexivity.
  - apply padded_lookup. rewrite lookup_map, Hx. reflexivity.
Qed.

Lemma padded_single (c : cloud) : padded [c] = [c].
Proof.
  unfold padded. cbn [map]. f_equal.
  change (max_len [c]) with (Nat.max (length c) 0).
  rewrite Nat.max_0_r, Nat.sub_diag. cbn. apply app_nil_r.
Qed.

(** X15: A batch of one sample has no padding: the clean and the noisy
    tensor hold exactly the clouds of the sample, each with its own
    point count, so that [squeeze(dim=0)] in [validate] gives back the
    clouds of the dataset. *)
Theorem custom_collate_single (d : sample) (x : cloud * cloud * point)
    (h : store) :
  holds h d x →
  ∃ b h' PC PN,
    custom_collate [d] h = (Ok b, h')
    ∧ h' !! pcl_clean b = Some (FloatBxLx3 PC)
    ∧ h' !! pcl_noisy b = Some (FloatBxLx3 PN)
    ∧ h' !! pcl_noisy_mean b = Some (FloatBx3 [x.2])
    ∧ h' !! pcl_length b = Some (LongB [Z.of_nat (length x.1.1)])
    ∧ squeeze0 PC = T2 x.1.1
    ∧ squeeze0 PN = T2 x.1.2.
Proof.
  intros H.
  destruct (custom_collate_run [d] [x] h) as (b & h' & Hrun & Hc & Hn & Hm & Hl);
    [discriminate|constructor; [exact H|constructor]|].
  cbn [map] in Hc, Hn, Hm, Hl. rewrite padded_single in Hc, Hn.
  exists b, h', [x.1.1], [x.1.2]. repeat split; assumption.
Qed.

(** X16: The four tensors of a batch are in four different storages. *)
Theorem custom_collate_batch_distinct (data : list sample) (h h' : store)
    (b : batch) :
  custom_collate data h = (Ok b, h') → NoDup (batch_locs b).
Proof.
  unfold custom_collate. intros H.
  apply bind_inv_ok in H as (ls1 & h1 & H1 & H).
  apply bind_inv_ok in H as (ls2 & h2 & H2 & H).
  apply bind_inv_ok in H as (ls3 & h3 & H3 & H).
  apply bind_inv_ok in H as (lens & h4 & H4 & H).
  apply bind_inv_ok in H as (l5 & h5 & H5 & H).
  apply bind_inv_ok in H as (l6 & h6 & H6 & H).
  apply bind_inv_ok in H as (l7 & h7 & H7 & H).
  apply bind_inv_ok in H as (l8 & h8 & H8 & H).
  cbn in H. inversion H; subst b h'. clear H.
  apply pad_sequence_inv in H5 as (cs & _ & E5 & ->).
  apply pad_sequence_inv in H6 as (ns & _ & E6 & ->).
  apply stack_inv in H7 as (ps & _ & E7 & ->).
  unfold LongTensor in H8. cbn in H8. inversion H8 as [[E8 Eh]]. clear H8 Eh.
  assert (I5 : l5 ∈ dom (<[l5 := FloatBxLx3 (padded cs)]> h4))
    by (apply elem_of_dom; rewrite lookup_insert_eq; eauto).
  assert (F6 : l6 ∉ dom (<[l5 := FloatBxLx3 (padded cs)]> h4))
    by (rewrite E6; apply is_fresh).
  set (h5 := <[l5 := FloatBxLx3 (padded cs)]> h4) in *.
  set (h6 := <[l6 := FloatBxLx3 (padded ns)]> h5) in *.
  set (h7 := <[l7 := FloatBx3 ps]> h6) in *.
  assert (S6 : dom h5 ⊆ dom h6)
    by (apply subseteq_dom, insert_subseteq, not_elem_of_dom, F6).
  assert (I6 : l6 ∈ dom h6)
    by (apply elem_of_dom; unfold h6; rewrite lookup_insert_eq; eauto).
  assert (F7 : l7 ∉ dom h6) by (rewrite E7; apply is_fresh).
  assert (S7 : dom h6 ⊆ dom h7)
    by (apply subseteq_dom, insert_subseteq, not_elem_of_dom, F7).
  assert (I7 : l7 ∈ dom h7)
    by (apply elem_of_dom; unfold h7; rewrite lookup_insert_eq; eauto).
  assert (F8 : l8 ∉ dom h7) by (rewrite <- E8; apply is_fresh).
  assert (N65 : l6 ≠ l5) by (intros E; apply F6; rewrite E; exact I5).
  assert (N75 : l7 ≠ l5)
    by (intros E; apply F7; rewrite E; apply S6; exact I5).
  assert (N76 : l7 ≠ l6) by (intros E; apply F7; rewrite E; exact I6).
  assert (N85 : l8 ≠ l5)
    by (intros E; apply F8; rewrite E; apply S7, S6; exact I5).
  assert (N86 : l8 ≠ l6)
    by (intros E; apply F8; rewrite E; apply S7; exact I6).
  assert (N87 : l8 ≠ l7) by (intros E; apply F8; rewrite E; exact I7).
  unfold batch_locs. cbn [pcl_clean pcl_noisy pcl_noisy_mean pcl_length].
  repeat (apply NoDup_cons; split); try apply NoDup_nil_2;
    intros Hin;
    repeat (apply elem_of_cons in Hin as [Hin|Hin]; [congruence|]);
    inversion Hin.
Qed.

End CollateMore.

(** ** More on the main loop *)

Section MainMore.
Import Tensor Script.

Context {S : Type}.
Variable mbes_denoise : S → ftensor → result ftensor.
Variable chamfer_distance : ftensor → ftensor → result fscalar.
Variable train_step : S → batch → result (fscalar * fscalar) * S.
Variable lr : S → fscalar.
Variable scheduler_step : S → result unit * S.
Variable ckpt_mgr_save : S → fscalar → nat → result unit.
Variable log_interval : Z.
Variable max_epochs : nat.
Variable train_loader val_loader : list batch.

Local Abbreviation train_for_one_epoch :=
  (Script.train_for_one_epoch train_step lr log_interval train_loader).
Local Abbreviation validate :=
  (Script.validate mbes_denoise chamfer_distance val_loader).
Local Abbreviation epoch_body :=
  (Script.epoch_body mbes_denoise chamfer_distance train_step lr
     scheduler_step ckpt_mgr_save log_interval train_loader val_loader).
Local Abbreviation epochs :=
  (Script.epochs mbes_denoise chamfer_distance train_step lr
     scheduler_step ckpt_mgr_save log_interval train_loader val_loader).
Local Abbreviation main_loop :=
  (Script.main_loop mbes_denoise chamfer_distance train_step lr
     scheduler_step ckpt_mgr_save log_interval max_epochs
     train_loader val_loader).

Lemma epochs_complete (n first : nat) (w w' : world S) :
  epochs n first w = (Ok tt, w') →
  ∃ new, checkpoints w' = checkpoints w ++ new
         ∧ map ck_step new = seq first n.
Proof.
  revert first w. induction n as [|n IH]; intros first w H.
  - cbn in H. inversion H; subst. exists []. rewrite app_nil_r. auto.
  - cbn [Script.epochs] in H. unfold bind in H.
    pose proof (epoch_body_checkpoints mbes_denoise chamfer_distance
                  train_step lr scheduler_step ckpt_mgr_save log_interval
                  train_loader val_loader first w) as Hb.
    destruct (epoch_body first w) as [[[]|e] w1]; [|discriminate].
    destruct Hb as [[_ [e He]]|(ck & Hstep & Hk)]; [discriminate|].
    apply IH in H as (new & Hn & Hs).
    exists (ck :: new). rewrite Hn, Hk, <- app_assoc. cbn.
    rewrite Hs, Hstep. auto.
Qed.

(** X17: A run that no exception cuts short ends normally without the
    line ['Terminating...'] and has written exactly one checkpoint per
    epoch, with the steps [0 .. max_epochs - 1] in order. *)
Theorem main_loop_complete (w w' : world S) :
  epochs max_epochs 0 w = (Ok tt, w') →
  main_loop w = (Ok tt, w')
  ∧ ∃ new, checkpoints w' = checkpoints w ++ new
           ∧ map ck_step new = seq 0 max_epochs.
Proof.
  intros H. split.
  - unfold Script.main_loop. rewrite H. reflexivity.
  - eapply epochs_complete. exact H.
Qed.

(** X18: Only [KeyboardInterrupt] is handled: any other exception that
    comes out of an epoch (a [RuntimeError] of a metric, a
    [ZeroDivisionError] of the logging) ends the main loop as that
    exception, with nothing logged by the handler and with the
    checkpoints of the epochs whose [save] had returned. *)
Theorem main_loop_other_exception (w w' : world S) (e : exn) :
  epochs max_epochs 0 w = (Raise e, w') →
  e ≠ KeyboardInterrupt →
  main_loop w = (Raise e, w')
  ∧ ∃ new, checkpoints w' = checkpoints w ++ new
           ∧ map ck_step new = seq 0 (length new)
           ∧ length new ≤ max_epochs.
Proof.
  intros H He. split.
  - unfold Script.main_loop. rewrite H. destruct e; congruence.
  - pose proof (epochs_checkpoints mbes_denoise chamfer_distance
                  train_step lr scheduler_step ckpt_mgr_save log_interval
                  train_loader val_loader max_epochs 0 w) as (new & Hn & Hs & Hl).
    rewrite H in Hn. cbn in Hn. eauto.
Qed.

Lemma validate_keeps_state (it : nat) (w w' : world S) r :
  validate it w = (Ok r, w') → state w' = state w.
Proof.
  rewrite validate_unfold.
  destruct (Script.validate_loop _ _ _ _ _); intros H; inversion H.
  reflexivity.
Qed.

(** X19: The checkpoint of an epoch: when training and validation of epoch
    [epoch] end normally and [save] returns, the epoch adds one
    checkpoint, whose score is the mean point-correspondence distance
    of that validation pass (not the Chamfer mean), whose step is the
    epoch and whose state is the one training left, before the
    scheduler steps; this holds whether or not the scheduler step then
    raises. *)
Theorem epoch_checkpoint (epoch : nat) (w w1 w2 : world S)
    (cd_loss diff_loss : fscalar) :
  train_for_one_epoch epoch w = (Ok tt, w1) →
  validate epoch w1 = (Ok (cd_loss, diff_loss), w2) →
  ckpt_mgr_save (state w1) diff_loss epoch = Ok tt →
  checkpoints (epoch_body epoch w).2
  = checkpoints w ++ [{| ck_state := state w1; ck_score := diff_loss;
                         ck_step := epoch |}].
Proof.
  intros Ht Hv Hs.
  pose proof (validate_keeps_state _ _ _ _ Hv) as Hst.
  pose proof (keeps_validate mbes_denoise chamfer_distance val_loader
                epoch w1) as Hkv.
  rewrite Hv in Hkv. cbn in Hkv.
  pose proof (keeps_train_for_one_epoch train_step lr log_interval
                train_loader epoch w) as Hkt.
  rewrite Ht in Hkt. cbn in Hkt.
  unfold Script.epoch_body.
  rewrite (bind_ok _ _ _ _ _ Ht), (bind_ok _ _ _ _ _ Hv).
  unfold bind, Script.ckpt_save. rewrite Hst, Hs.
  pose proof (keeps_on_state (S:=S) scheduler_step) as Hks.
  match goal with
  | |- context [on_state scheduler_step ?w3] =>
      specialize (Hks w3); destruct (on_state scheduler_step w3) as [r w4]
  end.
  cbn in *. rewrite Hks, Hkv, Hkt. reflexivity.
Qed.

End MainMore.

Section LoadFacts.
Import Config.


End LoadFacts.

(** ** The distance on a padded batch *)

Section PaddedBatchFacts.
Import Tensor Collate.

Lemma collect_map_Forall {A C} (f : A → result C) (g : A → C) (l : list A) :
  Forall (λ x, f x = Ok (g x)) l → collect (map f l) = Ok (map g l).
Proof.
  induction 1 as [|x l Hx _ IH]; [reflexivity|].
  cbn [map collect]. rewrite Hx, IH. reflexivity.
Qed.

Lemma zip_with_map_map {A B C D} (h : B → C → D) (f : A → B) (g : A → C)
    (l : list A) :
  zip_with h (map f l) (map g l) = map (λ x, h (f x) (g x)) l.
Proof. induction l as [|x l IH]; cbn; [reflexivity|]. by rewrite IH. Qed.

Lemma Rsum_zero_norms (k : nat) :
  Rsum (map vector_norm (replicate k zero_point)) = 0%R.
Proof.
  induction k as [|k IH]; [reflexivity|].
  change (vector_norm zero_point
          + Rsum (map vector_norm (replicate k zero_point)) = 0)%R.
  rewrite IH, vector_norm_zero. ring.
Qed.

(** A row pair of a padded batch: the valid rows are subtracted, the
    padding rows give zero rows. *)
Lemma cloud_sub_padded_rows (cap : nat) (d c : cloud) :
  length d = length c →
  cloud_sub (d ++ replicate (cap - length d) zero_point)
            (c ++ replicate (cap - length c) zero_point)
  = Ok (zip_with psub d c ++ replicate (cap - length c) zero_point).
Proof.
  intros Hl. rewrite cloud_sub_same_length
    by (rewrite !length_app, !length_replicate; lia).
  rewrite zip_with_app by exact Hl. rewrite Hl, zip_with_replicate.
  rewrite psub_diag. reflexivity.
Qed.

Lemma Rsum_concat_map {A} (h : A → list R) (l : list A) :
  Rsum (concat (map h l)) = Rsum (map (λ x, Rsum (h x)) l).
Proof.
  induction l as [|x l IH]; [reflexivity|].
  cbn [map concat]. rewrite Rsum_app, IH. reflexivity.
Qed.

Lemma length_concat_rows {A B} (h : A → list B) (cap : nat) (l : list A) :
  Forall (λ x, length (h x) = cap) l →
  length (concat (map h l)) = length l * cap.
Proof.
  induction 1 as [|x l Hx _ IH]; [reflexivity|].
  cbn [map concat length]. rewrite length_app, Hx, IH. lia.
Qed.

(** X12: Line 179 on a collated batch of two or more samples whose padding
    rows are zero in both tensors: the sum of the distances of the
    valid rows is divided by batch size times padded capacity, not by
    the number of valid rows. *)
Theorem point_corr_distance_padded_batch (xs : list (cloud * cloud)) :
  2 ≤ length xs →
  Forall (λ x, length x.1 = length x.2) xs →
  0 < max_len (map snd xs) →
  point_corr_distance (squeeze0 (padded (map fst xs)))
                      (squeeze0 (padded (map snd xs)))
  = Ok (Val (Rsum (map (λ x, Rsum (row_distances x.1 x.2)) xs)
             / INR (length xs * max_len (map snd xs)))).
Proof.
  intros HB Hlen Hcap.
  assert (Hmax : max_len (map fst xs) = max_len (map snd xs))
    by (apply (max_len_same_lengths fst snd); exact Hlen).
  set (cap := max_len (map snd xs)) in *.
  assert (Hsq : ∀ l : list cloud, 2 ≤ length l → squeeze0 l = T3 l).
  { intros [|a [|b l]] H; cbn in H; try lia. reflexivity. }
  rewrite !Hsq by (rewrite padded_length, length_map; exact HB).
  unfold point_corr_distance, tsub, broadcast.
  destruct (decide _) as [_|Hne];
    [|exfalso; apply Hne; rewrite !padded_length, !length_map; reflexivity].
  unfold padded. rewrite Hmax. fold cap. rewrite !map_map.
  rewrite (zip_with_map_map cloud_sub).
  rewrite (collect_map_Forall _
             (λ x, zip_with psub x.1 x.2
                   ++ replicate (cap - length x.2) zero_point)).
  2:{ eapply Forall_impl; [exact Hlen|]. intros x Hx. cbn beta.
      apply cloud_sub_padded_rows. exact Hx. }
  cbn [rbind norms]. rewrite map_map.
  set (h := λ x : cloud * cloud,
         map vector_norm (zip_with psub x.1 x.2
                          ++ replicate (cap - length x.2) zero_point)).
  assert (Hrow : Forall (λ x, length (h x) = cap) xs).
  { apply Forall_forall. intros x Hx. unfold h.
    rewrite length_map, length_app, length_zip_with, length_replicate.
    rewrite Forall_forall in Hlen. rewrite (Hlen x Hx), Nat.min_id.
    assert (x.2 ∈ map snd xs)
      by (apply list_elem_of_fmap; exists x; auto).
    pose proof (length_le_max_len (map snd xs) x.2 H). fold cap in H0. lia. }
  pose proof (length_concat_rows h cap xs Hrow) as Hlc.
  assert (Hsum : Rsum (concat (map h xs))
                 = Rsum (map (λ x, Rsum (row_distances x.1 x.2)) xs)).
  { rewrite Rsum_concat_map. f_equal. apply map_ext. intros x. unfold h.
    rewrite map_app, Rsum_app, Rsum_zero_norms. unfold row_distances. ring. }
  destruct (concat (map h xs)) as [|r rs] eqn:E.
  - cbn in Hlc. nia.
  - unfold mean. rewrite Hsum, Hlc. reflexivity.
Qed.

End PaddedBatchFacts.

(** ** Instances *)

Lemma train_epoch_zero_log_interval_witness :
  0%Z = 0%Z
  ∧ [Demo.one_batch] = Demo.one_batch :: []
  ∧ Demo.train_step (Script.state Demo.w0) Demo.one_batch
    = (Ok (Tensor.Val 0, Tensor.Val 0), 1)
  ∧ Script.train_for_one_epoch Demo.train_step Demo.lr 0 [Demo.one_batch]
      5 Demo.w0
    = (Raise ZeroDivisionError, Script.with_state 1 Demo.w0).
Proof.
  split; [reflexivity|]. split; [reflexivity|]. split; [reflexivity|].
  eapply train_epoch_zero_log_interval; reflexivity.
Defined.


Lemma train_epoch_first_report_witness :
  2%Z ≠ 0%Z
  ∧ [Demo.one_batch] = Demo.one_batch :: []
  ∧ Demo.train_step (Script.state Demo.w0) Demo.one_batch
    = (Ok (Tensor.Val 0, Tensor.Val 0), 1)
  ∧ ∃ lines,
      Script.logger (Script.train_for_one_epoch Demo.train_step Demo.lr 2
                       [Demo.one_batch] 0 Demo.w0).2
      = Script.logger Demo.w0
        ++ Script.LogTrain 0 (Tensor.Val (0 / IZR 2)) (Tensor.Val (0 / IZR 2))
           :: lines.
Proof.
  split; [discriminate|]. split; [reflexivity|]. split; [reflexivity|].
  eapply train_epoch_first_report; [discriminate|reflexivity|reflexivity].
Defined.

Lemma point_corr_distance_nonneg_witness :
  Tensor.point_corr_distance (Tensor.T2 [Demo.p0]) (Tensor.T2 [Tensor.zero_point])
  = Ok (Tensor.Val
          (Tensor.Rsum [Tensor.vector_norm (Tensor.psub Demo.p0 Tensor.zero_point)]
           / INR 1))
  ∧ (0 <= Tensor.Rsum [Tensor.vector_norm
                         (Tensor.psub Demo.p0 Tensor.zero_point)] / INR 1)%R.
Proof.
  assert (H : Tensor.point_corr_distance (Tensor.T2 [Demo.p0])
                (Tensor.T2 [Tensor.zero_point])
              = Ok (Tensor.Val
                      (Tensor.Rsum [Tensor.vector_norm
                                      (Tensor.psub Demo.p0 Tensor.zero_point)]
                       / INR 1))) by reflexivity.
  split; [exact H|].
  exact (point_corr_distance_nonneg _ _ _ H).
Defined.

Lemma validate_first_failure_witness :
  let d := Tensor.mean
             [Tensor.vector_norm (Tensor.psub Tensor.zero_point Demo.p0)] in
  let ms := [(Tensor.T2 [Tensor.zero_point], Tensor.Val 0, d)] in
  let e := RuntimeError
             "The size of tensor a must match the size of tensor b" in
  Forall2 (Script.measured Demo.denoise Demo.chamfer (Script.state Demo.w0))
          [Demo.one_batch] ms
  ∧ Script.fails Demo.denoise Demo.chamfer (Script.state Demo.w0)
      Demo.mismatched_batch e
  ∧ Script.validate Demo.denoise Demo.chamfer
      ([Demo.one_batch] ++ Demo.mismatched_batch :: [Demo.one_batch])
      3 Demo.w0
    = (Raise e, Demo.w0).
Proof.
  intros d ms e.
  assert (H1 : Forall2 (Script.measured Demo.denoise Demo.chamfer
                          (Script.state Demo.w0)) [Demo.one_batch] ms)
    by (repeat constructor).
  assert (H2 : Script.fails Demo.denoise Demo.chamfer (Script.state Demo.w0)
                 Demo.mismatched_batch e).
  { right. eexists. split; [reflexivity|]. right. eexists.
    split; reflexivity. }
  split; [exact H1|]. split; [exact H2|].
  exact (validate_first_failure Demo.denoise Demo.chamfer _ _ _ _ _ 3
           Demo.w0 H1 H2).
Defined.

Lemma validate_nan_witness :
  Forall2 (Script.measured Demo.denoise Demo.chamfer (Script.state Demo.w0))
          [] []
  ∧ ∃ avg_chamfer avg_diff,
      (Script.validate Demo.denoise Demo.chamfer [] 3 Demo.w0).1
      = Ok (avg_chamfer, avg_diff)
      ∧ avg_diff = Tensor.NaN.
Proof.
  assert (H : Forall2 (Script.measured Demo.denoise Demo.chamfer
                         (Script.state Demo.w0)) [] []) by constructor.
  split; [exact H|].
  destruct (validate_nan Demo.denoise Demo.chamfer [] 3 Demo.w0 [] H)
    as (c & d & Hv & _ & Hd).
  exists c, d. split; [exact Hv|]. apply Hd. left. reflexivity.
Defined.


Lemma custom_collate_padding_is_zero_witness :
  Demo.demo_data ≠ []
  ∧ Forall2 (Collate.holds Demo.demo_store) Demo.demo_data Demo.demo_contents
  ∧ ∃ b h' PC,
      Collate.custom_collate Demo.demo_data Demo.demo_store = (Ok b, h')
      ∧ h' !! Collate.pcl_clean b = Some (Collate.FloatBxLx3 PC)
      ∧ PC !! 1 = Some [Demo.p0; Tensor.zero_point].
Proof.
  assert (H1 : Demo.demo_data ≠ []) by discriminate.
  assert (H2 : Forall2 (Collate.holds Demo.demo_store) Demo.demo_data
                 Demo.demo_contents) by (repeat constructor).
  split; [exact H1|]. split; [exact H2|].
  destruct (custom_collate_padding_is_zero Demo.demo_data Demo.demo_contents
              Demo.demo_store H1 H2)
    as (b & h' & PC & PN & lens & Hrun & Hc & _ & _ & Hi).
  exists b, h', PC. split; [exact Hrun|]. split; [exact Hc|].
  exact (proj1 (proj2 (Hi 1 ([Demo.p0], [Tensor.zero_point],
                             Tensor.zero_point) eq_refl))).
Defined.

Lemma custom_collate_single_witness :
  let d := {| Collate.d_pcl_clean := 1; Collate.d_pcl_noisy := 2;
              Collate.d_pcl_noisy_mean := 3 |}%positive in
  let x := ([Demo.p0; Demo.p0], [Demo.p0; Tensor.zero_point], Demo.p0) in
  Collate.holds Demo.demo_store d x
  ∧ ∃ b h', Collate.custom_collate [d] Demo.demo_store = (Ok b, h').
Proof.
  intros d x.
  assert (H : Collate.holds Demo.demo_store d x) by (repeat split).
  split; [exact H|].
  destruct (custom_collate_single d x Demo.demo_store H)
    as (b & h' & _ & _ & Hrun & _).
  exists b, h'. exact Hrun.
Defined.

Lemma custom_collate_batch_distinct_witness :
  let run := Collate.custom_collate Demo.demo_data Demo.demo_store in
  let b := {| Collate.pcl_clean := 13; Collate.pcl_noisy := 14;
              Collate.pcl_noisy_mean := 15;
              Collate.pcl_length := 16 |}%positive in
  run = (Ok b, run.2) ∧ NoDup (Collate.batch_locs b).
Proof.
  intros run b.
  assert (H : run = (Ok b, run.2)) by reflexivity.
  split; [exact H|].
  exact (custom_collate_batch_distinct Demo.demo_data Demo.demo_store
           run.2 b H).
Defined.

Lemma main_loop_complete_witness :
  let run := Script.epochs Demo.denoise Demo.chamfer Demo.train_step Demo.lr
               Demo.scheduler_step Demo.ckpt_mgr_save 1
               [Demo.one_batch] [Demo.one_batch] 1 0 Demo.w0 in
  run = (Ok tt, run.2)
  ∧ Script.main_loop Demo.denoise Demo.chamfer Demo.train_step Demo.lr
      Demo.scheduler_step Demo.ckpt_mgr_save 1 1
      [Demo.one_batch] [Demo.one_batch] Demo.w0 = (Ok tt, run.2).
Proof.
  intros run.
  assert (H : run = (Ok tt, run.2)) by reflexivity.
  split; [exact H|].
  exact (proj1 (main_loop_complete Demo.denoise Demo.chamfer Demo.train_step
                  Demo.lr Demo.scheduler_step Demo.ckpt_mgr_save 1 1
                  [Demo.one_batch] [Demo.one_batch] Demo.w0 run.2 H)).
Defined.

Lemma main_loop_other_exception_witness :
  let e := RuntimeError
             "The size of tensor a must match the size of tensor b" in
  let run := Script.epochs Demo.denoise Demo.chamfer Demo.train_step Demo.lr
               Demo.scheduler_step Demo.ckpt_mgr_save 1
               [Demo.one_batch] [Demo.mismatched_batch] 2 0 Demo.w0 in
  run = (Raise e, run.2)
  ∧ e ≠ KeyboardInterrupt
  ∧ Script.main_loop Demo.denoise Demo.chamfer Demo.train_step Demo.lr
      Demo.scheduler_step Demo.ckpt_mgr_save 1 2
      [Demo.one_batch] [Demo.mismatched_batch] Demo.w0 = (Raise e, run.2).
Proof.
  intros e run.
  assert (H : run = (Raise e, run.2)) by reflexivity.
  assert (He : e ≠ KeyboardInterrupt) by discriminate.
  split; [exact H|]. split; [exact He|].
  exact (proj1 (main_loop_other_exception Demo.denoise Demo.chamfer
                  Demo.train_step Demo.lr Demo.scheduler_step
                  Demo.ckpt_mgr_save 1 2 [Demo.one_batch]
                  [Demo.mismatched_batch] Demo.w0 run.2 e H He)).
Defined.

Lemma epoch_checkpoint_witness :
  let t := Script.train_for_one_epoch Demo.train_step Demo.lr 1
             [Demo.one_batch] 0 Demo.w0 in
  let v := Script.validate Demo.denoise Demo.chamfer [Demo.one_batch] 0 t.2 in
  let d := Tensor.mean_items
             [Tensor.mean
                [Tensor.vector_norm (Tensor.psub Tensor.zero_point Demo.p0)]] in
  t = (Ok tt, t.2)
  ∧ v = (Ok (Tensor.mean_items [Tensor.Val 0], d), v.2)
  ∧ Demo.ckpt_mgr_save (Script.state t.2) d 0 = Ok tt
  ∧ map Script.ck_score
      (Script.checkpoints
         (Script.epoch_body Demo.denoise Demo.chamfer Demo.train_step Demo.lr
            Demo.scheduler_step Demo.ckpt_mgr_save 1
            [Demo.one_batch] [Demo.one_batch] 0 Demo.w0).2) = [d].
Proof.
  intros t v d.
  assert (H1 : t = (Ok tt, t.2)) by reflexivity.
  assert (H2 : v = (Ok (Tensor.mean_items [Tensor.Val 0], d), v.2))
    by reflexivity.
  assert (H3 : Demo.ckpt_mgr_save (Script.state t.2) d 0 = Ok tt)
    by reflexivity.
  split; [exact H1|]. split; [exact H2|]. split; [exact H3|].
  rewrite (epoch_checkpoint Demo.denoise Demo.chamfer Demo.train_step Demo.lr
             Demo.scheduler_step Demo.ckpt_mgr_save 1
             [Demo.one_batch] [Demo.one_batch] 0 Demo.w0 t.2 v.2 _ d H1 H2 H3).
  reflexivity.
Defined.


Lemma point_corr_distance_padded_batch_witness :
  let xs := [([Demo.p0; Demo.p0], [Demo.p0; Tensor.zero_point]);
             ([Demo.p0], [Tensor.zero_point])] in
  2 ≤ length xs
  ∧ Forall (λ x, length x.1 = length x.2) xs
  ∧ 0 < Collate.max_len (map snd xs)
  ∧ ∃ v, Tensor.point_corr_distance
           (Tensor.squeeze0 (Collate.padded (map fst xs)))
           (Tensor.squeeze0 (Collate.padded (map snd xs)))
         = Ok (Tensor.Val (v / INR 4)).
Proof.
  intros xs.
  assert (H1 : 2 ≤ length xs) by (cbn; lia).
  assert (H2 : Forall (λ x, length x.1 = length x.2) xs)
    by (repeat constructor).
  assert (H3 : 0 < Collate.max_len (map snd xs)) by (cbn; lia).
  split; [exact H1|]. split; [exact H2|]. split; [exact H3|].
  eexists. exact (point_corr_distance_padded_batch xs H1 H2 H3).
Defined.
